(** * A shallow embedding of the Go PID controller (package [pid])

    The controller is a struct of [float64] gains, bounds and internal state
    and two methods, [Update] and [Reset].  [float64] is embedded as Rocq's
    primitive binary64 floats, whose operations are the IEEE 754 operations
    that Go performs (round to nearest even, one rounding per operation, no
    fused multiply-add), so that the embedding can be run on concrete inputs
    and NaN, infinities and signed zeros behave as they do in the program.

    The source file holds two revisions of the package.  They share the
    struct and [Reset] and differ in [Update]: the first (lines 35-89)
    always computes the D and I terms, the second (lines 132-188) guards
    them on non-zero gains.  They are embedded as [Primary.Update] and
    [Guarded.Update].  The loops and the tables of the package's tests are
    embedded too ([UpdateLoop], [tests]), with the readings of the clock of
    each iteration as their input. *)

From Stdlib Require Import ZArith Bool Lia List.
From Stdlib Require Import Floats.
Import ListNotations.

Set Warnings "-inexact-float".

Local Open Scope float_scope.

(** ** The part of Go's [time] package that the controller uses *)

Module time.

(** A [time.Time] is an instant; it is kept as the number of nanoseconds
    since the zero [Time] (January 1, year 1, 00:00:00 UTC). *)
Definition Time : Type := Z.

(** A [time.Duration] is an [int64] count of nanoseconds. *)
Definition Duration : Type := Z.

Definition minDuration : Duration := (- 2 ^ 63)%Z.
Definition maxDuration : Duration := (2 ^ 63 - 1)%Z.
Definition Microsecond : Duration := 1000%Z.
Definition Second : Duration := 1000000000%Z.

(** [t.IsZero()] *)
Definition IsZero (t : Time) : bool := (t =? 0)%Z.

(** [t.Sub(u)]: the duration [t - u], saturated to the range of
    [Duration]. *)
Definition Sub (t u : Time) : Duration :=
  let d := (t - u)%Z in
  if (d <? minDuration)%Z then minDuration
  else if (maxDuration <? d)%Z then maxDuration
  else d.

(** The conversion [float64(n)] of an [int64], for the [n] that [Seconds]
    converts (they are below [2 ^ 63] in absolute value). *)
Definition float64_of_int64 (n : Z) : float :=
  if (n <? 0)%Z then - of_uint63 (Uint63.of_Z (- n))
  else of_uint63 (Uint63.of_Z n).

(** [d.Seconds()]:
    [sec := d / Second; nsec := d % Second;
     return float64(sec) + float64(nsec)/1e9]
    with Go's truncated integer division. *)
Definition Seconds (d : Duration) : float :=
  let sec := Z.quot d Second in
  let nsec := Z.rem d Second in
  float64_of_int64 sec + float64_of_int64 nsec / 1e9.

End time.

(** ** The controller *)

(** [type PID struct]: the parameters, then the internal state. *)
Record PID : Type := mkPID {
  Kp : float;
  Ki : float;
  Kd : float;
  MinOutput : float;
  MaxOutput : float;
  Deadband : float;
  Saturated : bool;
  AntiWindup : bool;
  prevError : float;
  integral : float;
  lastTime : time.Time;
  lastOutput : float
}.

(** Assignments to single fields of [*pid]. *)
Definition set_Saturated (pid : PID) (b : bool) : PID :=
  mkPID (Kp pid) (Ki pid) (Kd pid) (MinOutput pid) (MaxOutput pid)
        (Deadband pid) b (AntiWindup pid)
        (prevError pid) (integral pid) (lastTime pid) (lastOutput pid).

Definition set_prevError (pid : PID) (x : float) : PID :=
  mkPID (Kp pid) (Ki pid) (Kd pid) (MinOutput pid) (MaxOutput pid)
        (Deadband pid) (Saturated pid) (AntiWindup pid)
        x (integral pid) (lastTime pid) (lastOutput pid).

Definition set_integral (pid : PID) (x : float) : PID :=
  mkPID (Kp pid) (Ki pid) (Kd pid) (MinOutput pid) (MaxOutput pid)
        (Deadband pid) (Saturated pid) (AntiWindup pid)
        (prevError pid) x (lastTime pid) (lastOutput pid).

Definition set_lastTime (pid : PID) (t : time.Time) : PID :=
  mkPID (Kp pid) (Ki pid) (Kd pid) (MinOutput pid) (MaxOutput pid)
        (Deadband pid) (Saturated pid) (AntiWindup pid)
        (prevError pid) (integral pid) t (lastOutput pid).

Definition set_lastOutput (pid : PID) (x : float) : PID :=
  mkPID (Kp pid) (Ki pid) (Kd pid) (MinOutput pid) (MaxOutput pid)
        (Deadband pid) (Saturated pid) (AntiWindup pid)
        (prevError pid) (integral pid) (lastTime pid) x.

(** A composite literal [PID{Kp: .., Ki: .., ...}]: the unexported fields
    are left at their zero values. *)
Definition literal (kp ki kd lo hi deadband : float) (saturated antiwindup : bool)
  : PID :=
  mkPID kp ki kd lo hi deadband saturated antiwindup 0 0 0%Z 0.

(** [time.Now()] is read twice in [Update]: once at its first line ([now])
    and once more inside [time.Since] ([now']).  Both readings are inputs of
    the embedding; the method returns the output and the struct it leaves
    behind. *)

(** [func (pid *PID) Reset()], with the reading of the clock as [now]. *)
Definition Reset (pid : PID) (now : time.Time) : PID :=
  let pid := set_prevError pid 0 in
  let pid := set_integral pid 0 in
  set_lastTime pid now.

Module Primary.

(** [func (pid *PID) Update(setpoint, measured float64) float64],
    first revision. *)
Definition Update (pid : PID) (now now' : time.Time)
           (setpoint measured : float) : float * PID :=
  let pid := if time.IsZero (lastTime pid) then set_lastTime pid now else pid in
  let dt := time.Seconds (time.Sub now' (lastTime pid)) in
  if dt <=? 0 then (lastOutput pid, pid) else
  let error := setpoint - measured in
  if abs error <? Deadband pid then (lastOutput pid, pid) else
  let pTerm := Kp pid * error in
  let dTerm := Kd pid * (error - prevError pid) / dt in
  let integral' := integral pid + (0.5 * dt * (error + prevError pid)) in
  let iTerm := Ki pid * integral pid in
  let output := pTerm + iTerm + dTerm in
  let saturated := false in
  let '(output, saturated) :=
    if MaxOutput pid <? output then
      (MaxOutput pid, if 0 <? error then true else saturated)
    else if output <? MinOutput pid then
      (MinOutput pid, if error <? 0 then true else saturated)
    else (output, saturated) in
  let pid := set_prevError pid error in
  let pid := set_lastTime pid now in
  let pid := set_lastOutput pid output in
  let pid := set_Saturated pid saturated in
  let pid := if AntiWindup pid && negb (Saturated pid)
             then set_integral pid integral' else pid in
  (output, pid).

End Primary.

Module Guarded.

(** [func (pid *PID) Update(setpoint, measured float64) float64],
    second revision. *)
Definition Update (pid : PID) (now now' : time.Time)
           (setpoint measured : float) : float * PID :=
  let pid := if time.IsZero (lastTime pid) then set_lastTime pid now else pid in
  let dt := time.Seconds (time.Sub now' (lastTime pid)) in
  if dt <=? 0 then (lastOutput pid, pid) else
  let error := setpoint - measured in
  if abs error <? Deadband pid then (lastOutput pid, pid) else
  let pTerm := Kp pid * error in
  let dTerm := 0 in
  let dTerm := if negb (Kd pid =? 0)
               then Kd pid * (error - prevError pid) / dt else dTerm in
  let iTerm := 0 in
  let integral' := 0.5 * dt * (error + prevError pid) in
  let iTerm := if negb (Ki pid =? 0) then Ki pid * integral pid else iTerm in
  let output := pTerm + iTerm + dTerm in
  let saturated := false in
  let '(output, saturated) :=
    if MaxOutput pid <? output then (MaxOutput pid, 0 <? error)
    else if output <? MinOutput pid then (MinOutput pid, error <? 0)
    else (output, saturated) in
  let pid := set_prevError pid error in
  let pid := set_lastTime pid now in
  let pid := set_lastOutput pid output in
  let pid := set_Saturated pid saturated in
  let pid := if AntiWindup pid && negb (Saturated pid)
             then set_integral pid integral' else pid in
  (output, pid).

End Guarded.

(** The two revisions under one name, for the statements that hold of
    both. *)
Inductive revision : Type := primary | guarded.

Definition Update (r : revision) : PID -> time.Time -> time.Time ->
                                   float -> float -> float * PID :=
  match r with
  | primary => Primary.Update
  | guarded => Guarded.Update
  end.

(** ** The quantities [Update] computes on its way

    They are named here so that the statements below can speak of them; the
    lemma [Update_full] shows that they are the ones of the code. *)

(** Lines 37-39: an unset [lastTime] becomes [now]. *)
Definition stamp (pid : PID) (now : time.Time) : PID :=
  if time.IsZero (lastTime pid) then set_lastTime pid now else pid.

(** Line 41: [dt]. *)
Definition elapsed (pid : PID) (now now' : time.Time) : float :=
  time.Seconds (time.Sub now' (lastTime (stamp pid now))).

(** Line 63 (line 166 in the second revision): [output] before the limits
    are applied. *)
Definition raw_output (r : revision) (pid : PID) (dt error : float) : float :=
  match r with
  | primary =>
      Kp pid * error + Ki pid * integral pid
      + Kd pid * (error - prevError pid) / dt
  | guarded =>
      Kp pid * error
      + (if negb (Ki pid =? 0) then Ki pid * integral pid else 0)
      + (if negb (Kd pid =? 0) then Kd pid * (error - prevError pid) / dt else 0)
  end.

(** Line 58 (line 161 in the second revision): the local [integral]. *)
Definition candidate_integral (r : revision) (pid : PID) (dt error : float)
  : float :=
  match r with
  | primary => integral pid + (0.5 * dt * (error + prevError pid))
  | guarded => 0.5 * dt * (error + prevError pid)
  end.

(** Lines 66-77: the limited [output] and the flag [saturated]. *)
Definition clamp (pid : PID) (raw : float) : float :=
  if MaxOutput pid <? raw then MaxOutput pid
  else if raw <? MinOutput pid then MinOutput pid
  else raw.

Definition saturation (pid : PID) (raw error : float) : bool :=
  if MaxOutput pid <? raw then 0 <? error
  else if raw <? MinOutput pid then error <? 0
  else false.

(** ** Vocabulary of the statements *)

(** The same number: identical floats, or two zeros whatever their signs.
    Floats that are the same number and not NaN are equal under Go's [==]
    (lemma [same_number_eqb]). *)
Definition same_number (x y : float) : Prop :=
  x = y \/ ((x =? 0) = true /\ (y =? 0) = true).

(** [x] lies in the closed interval of the output limits of [pid]. *)
Definition within_limits (pid : PID) (x : float) : Prop :=
  (MinOutput pid <=? x) = true /\ (x <=? MaxOutput pid) = true.

(** The structs a program can get to from [pid0] by calling the two
    methods. *)
Inductive reachable (r : revision) (pid0 : PID) : PID -> Prop :=
| reach_start : reachable r pid0 pid0
| reach_Update pid now now' setpoint measured :
    reachable r pid0 pid ->
    reachable r pid0 (snd (Update r pid now now' setpoint measured))
| reach_Reset pid now :
    reachable r pid0 pid ->
    reachable r pid0 (Reset pid now).

(** A zero of either sign, in the specification of the floats. *)
Definition SFis_zero (x : spec_float) : bool :=
  match x with S754_zero _ => true | _ => false end.

(** The clock of the examples: [t0] is some instant after the zero [Time],
    [after t d] the instant [d] nanoseconds later, [t1] and [t2] one and two
    seconds after [t0]. *)
Definition t0 : time.Time := 1000000000000%Z.
Definition after (t : time.Time) (d : time.Duration) : time.Time := (t + d)%Z.
Definition t1 : time.Time := after t0 time.Second.
Definition t2 : time.Time := after t1 time.Second.

(** ** Vocabulary of the further properties *)

(** Classes of floats by sign, in the specification of the floats: not
    negative (a zero, or positive), not positive, of the side of the sign
    [s], and positive. *)
Definition SFnonneg (x : spec_float) : bool :=
  match x with
  | S754_zero _ => true
  | S754_infinity s | S754_finite s _ _ => negb s
  | S754_nan => false
  end.

Definition SFnonpos (x : spec_float) : bool :=
  match x with
  | S754_zero _ => true
  | S754_infinity s | S754_finite s _ _ => s
  | S754_nan => false
  end.

Definition SFsigned (s : bool) (x : spec_float) : bool :=
  if s then SFnonpos x else SFnonneg x.

Definition SFpositive (x : spec_float) : bool :=
  match x with
  | S754_infinity s | S754_finite s _ _ => negb s
  | _ => false
  end.

(** The first two terms of line 63 (line 166): the proportional and the
    integral term, as each revision writes them. *)
Definition pi_output (r : revision) (pid : PID) (error : float) : float :=
  match r with
  | primary => Kp pid * error + Ki pid * integral pid
  | guarded =>
      Kp pid * error
      + (if negb (Ki pid =? 0) then Ki pid * integral pid else 0)
  end.

(** ** The tests (the test file of the package)

    The loop of the tests,
    [for i := 0; i < n; i++ { output = pid.Update(setpoint, measured); ... }],
    with the two readings of the clock of each iteration; [n] is the length
    of [clock]. *)
Fixpoint UpdateLoop (r : revision) (clock : list (time.Time * time.Time))
         (setpoint measured : float) (output : float) (pid : PID)
  : float * PID :=
  match clock with
  | [] => (output, pid)
  | (now, now') :: clock' =>
      let '(output', pid') := Update r pid now now' setpoint measured in
      UpdateLoop r clock' setpoint measured output' pid'
  end.

(** A clock that ticks: within an iteration the second reading is not
    before the first, and the [time.Sleep] of the loop separates the
    iterations, the first of which starts after [t]. *)
Fixpoint ticking (t : time.Time) (clock : list (time.Time * time.Time)) : Prop :=
  match clock with
  | [] => True
  | (now, now') :: clock' =>
      (t < now)%Z /\ (now <= now')%Z /\ ticking now' clock'
  end.

(** The table of [TestPIDUpdate]. *)
Record testcase : Type := mkTestcase {
  tt_pid : PID;
  tt_setpoint : float;
  tt_measured : float;
  tt_expected : float
}.

Definition tests : list testcase :=
  [ mkTestcase (literal 1 0 0 (-100) 100 0 false false) 10 5 5;
    mkTestcase (literal 10 0 0 (-20) 20 0 false false) 10 5 20;
    mkTestcase (literal 1 0.1 0.05 (-100) 100 0 false false) 10 5 5.05;
    mkTestcase (literal 1 0 0 (-100) 100 2 false false) 10 9 0 ].

(** The body of [t.Run] in [TestPIDUpdate]: the loop, then the condition
    [math.Abs(output-tt.expected) > 0.1] under which the test reports an
    error. *)
Definition TestPIDUpdate_fails (r : revision) (tt : testcase)
           (clock : list (time.Time * time.Time)) : bool :=
  let output := 0 in
  let output :=
    fst (UpdateLoop r clock (tt_setpoint tt) (tt_measured tt) output (tt_pid tt)) in
  0.1 <? abs (output - tt_expected tt).

(** Invariants of the loops.  [TestPIDSaturation]: the struct before the
    loop, after one iteration, and from then on. *)
Definition saturation_state (n : nat) (t : time.Time) (output : float)
           (pid : PID) : Prop :=
  match n with
  | O => output = 0 /\ pid = literal 10 0 0 (-20) 20 0 false false /\ (0 <= t)%Z
  | S O =>
      exists saturated previous last,
        pid = mkPID 10 0 0 (-20) 20 0 saturated false previous 0 last output /\
        (previous = 0 \/ previous = 10) /\ (0 < last <= t)%Z
  | _ =>
      exists last,
        pid = mkPID 10 0 0 (-20) 20 0 true false 10 0 last 20 /\
        output = 20 /\ (0 < last <= t)%Z
  end.

(** [TestPIDAntiWindup]: nothing is ever accumulated. *)
Definition antiwindup_state (output : float) (pid : PID) : Prop :=
  exists saturated previous last,
    pid = mkPID 1 0.1 0 (-10) 10 0 saturated true previous 0 last output /\
    (previous = 0 \/ previous = 100).

(** [TestPIDUpdate]: the struct of a case with gains and limits
    [kp .. deadband] and error [error], before the loop, after one
    iteration, after two, and from then on, when the output is [final]. *)
Definition update_state (kp ki kd lo hi deadband error final : float)
           (n : nat) (t : time.Time) (output : float) (pid : PID) : Prop :=
  match n with
  | O => output = 0 /\ pid = literal kp ki kd lo hi deadband false false /\
         (0 <= t)%Z
  | S O =>
      exists saturated previous last,
        pid = mkPID kp ki kd lo hi deadband saturated false
                    previous 0 last output /\
        (previous = 0 \/ previous = error) /\ (0 < last <= t)%Z
  | S (S O) =>
      exists saturated last,
        pid = mkPID kp ki kd lo hi deadband saturated false
                    error 0 last output /\
        (0 < last <= t)%Z
  | _ =>
      exists saturated last,
        pid = mkPID kp ki kd lo hi deadband saturated false
                    error 0 last final /\
        output = final /\ (0 < last <= t)%Z
  end.

(** The fourth case of [TestPIDUpdate] never leaves the deadband. *)
Definition deadband_state (output : float) (pid : PID) : Prop :=
  exists last,
    pid = mkPID 1 0 0 (-100) 100 2 false false 0 0 last 0 /\ output = 0.

(** * Facts about binary64 floats

    The order and the arithmetic of the primitive floats are specified by
    the library through [Prim2SF]; the facts the controller needs are
    derived from that specification. *)

(** ** The order *)

Lemma SFcompare_antisym (x y : spec_float) :
  SFcompare y x = option_map CompOpp (SFcompare x y).
Proof.
  destruct x as [sx|sx| |sx mx ex], y as [sy|sy| |sy my ey]; simpl;
    try reflexivity; try (destruct sx; reflexivity); try (destruct sy; reflexivity);
    try (destruct sx, sy; reflexivity).
  destruct sx, sy; simpl; try reflexivity;
    rewrite (Z.compare_antisym ex ey); destruct (ex ?= ey)%Z; simpl; try reflexivity;
    rewrite ?Pos.compare_cont_antisym; simpl; try reflexivity.
Qed.

Lemma SFcompare_refl (x : spec_float) :
  x <> S754_nan -> SFcompare x x = Some Eq.
Proof.
  destruct x as [s|s| |s m e]; simpl; intros H; try reflexivity; try congruence.
  - now destruct s.
  - destruct s; rewrite Z.compare_refl; fold (Pos.compare m m); now rewrite Pos.compare_refl.
Qed.

Lemma SFcompare_None (x y : spec_float) :
  SFcompare x y = None <-> x = S754_nan \/ y = S754_nan.
Proof.
  split.
  - destruct x as [sx|sx| |sx mx ex], y as [sy|sy| |sy my ey]; simpl; intros H;
      try discriminate; auto.
  - intros [-> | ->]; [reflexivity | now destruct x].
Qed.

Lemma SFcompare_Lt_trans (x y z : spec_float) :
  SFcompare x y = Some Lt ->
  SFcompare y z = Some Lt \/ SFcompare y z = Some Eq ->
  SFcompare x z = Some Lt.
Proof.
  destruct x as [sx|sx| |sx mx ex], y as [sy|sy| |sy my ey],
           z as [sz|sz| |sz mz ez]; simpl;
    try (destruct sx); try (destruct sy); try (destruct sz);
    intros H [H'|H']; try discriminate; try reflexivity; revert H H';
    change (Pos.compare_cont Eq) with Pos.compare;
    destruct (Z.compare_spec ex ey), (Z.compare_spec ey ez),
             (Z.compare_spec ex ez); subst; try lia;
    try discriminate; try reflexivity;
    destruct (Pos.compare_spec mx my), (Pos.compare_spec my mz),
             (Pos.compare_spec mx mz); subst; simpl; try lia;
    try discriminate; try reflexivity.
Qed.

Lemma SFcompare_Le_trans (x y z : spec_float) :
  SFcompare x y = Some Lt \/ SFcompare x y = Some Eq ->
  SFcompare y z = Some Lt \/ SFcompare y z = Some Eq ->
  SFcompare x z = Some Lt \/ SFcompare x z = Some Eq.
Proof.
  destruct x as [sx|sx| |sx mx ex], y as [sy|sy| |sy my ey],
           z as [sz|sz| |sz mz ez]; simpl;
    try (destruct sx); try (destruct sy); try (destruct sz);
    intros [H|H] [H'|H']; try discriminate; auto; revert H H';
    change (Pos.compare_cont Eq) with Pos.compare;
    destruct (Z.compare_spec ex ey), (Z.compare_spec ey ez),
             (Z.compare_spec ex ez); subst; try lia;
    try discriminate; auto;
    destruct (Pos.compare_spec mx my), (Pos.compare_spec my mz),
             (Pos.compare_spec mx mz); subst; simpl; try lia;
    try discriminate; auto.
Qed.

Lemma is_nan_SF x : is_nan x = true <-> Prim2SF x = S754_nan.
Proof.
  unfold is_nan. rewrite eqb_spec. unfold SFeqb. split.
  - intros H. destruct (Prim2SF x) eqn:E; try reflexivity;
    rewrite SFcompare_refl in H by discriminate; discriminate.
  - intros ->. reflexivity.
Qed.

Lemma not_nan_SF x : is_nan x = false <-> Prim2SF x <> S754_nan.
Proof.
  rewrite <- is_nan_SF. destruct (is_nan x); split; congruence.
Qed.

Lemma leb_not_nan x y : (x <=? y) = true -> is_nan x = false /\ is_nan y = false.
Proof.
  rewrite leb_spec, !not_nan_SF. unfold SFleb. intros H.
  split; intros E; rewrite E in H; [|rewrite (proj2 (SFcompare_None _ _)) in H by auto]; discriminate.
Qed.

Lemma ltb_not_nan x y : (x <? y) = true -> is_nan x = false /\ is_nan y = false.
Proof.
  rewrite ltb_spec, !not_nan_SF. unfold SFltb. intros H.
  split; intros E; rewrite E in H; [|rewrite (proj2 (SFcompare_None _ _)) in H by auto]; discriminate.
Qed.

Lemma leb_refl x : is_nan x = false -> (x <=? x) = true.
Proof.
  rewrite leb_spec, not_nan_SF. unfold SFleb. intros H. now rewrite SFcompare_refl.
Qed.

Lemma ltb_false_leb x y :
  is_nan x = false -> is_nan y = false -> (x <? y) = false -> (y <=? x) = true.
Proof.
  rewrite ltb_spec, leb_spec, !not_nan_SF. unfold SFltb, SFleb. intros Hx Hy.
  rewrite (SFcompare_antisym (Prim2SF x) (Prim2SF y)).
  destruct (SFcompare (Prim2SF x) (Prim2SF y)) as [[]|] eqn:E; simpl; try congruence.
  apply SFcompare_None in E. tauto.
Qed.

Lemma ltb_leb_false x y : (x <? y) = true -> (y <=? x) = false.
Proof.
  rewrite ltb_spec, leb_spec. unfold SFltb, SFleb.
  rewrite (SFcompare_antisym (Prim2SF x) (Prim2SF y)).
  destruct (SFcompare (Prim2SF x) (Prim2SF y)) as [[]|]; simpl; congruence.
Qed.

Lemma leb_ltb_false x y : (x <=? y) = true -> (y <? x) = false.
Proof.
  rewrite ltb_spec, leb_spec. unfold SFltb, SFleb.
  rewrite (SFcompare_antisym (Prim2SF x) (Prim2SF y)).
  destruct (SFcompare (Prim2SF x) (Prim2SF y)) as [[]|]; simpl; congruence.
Qed.

Lemma ltb_leb_trans x y z :
  (x <? y) = true -> (y <=? z) = true -> (x <? z) = true.
Proof.
  rewrite !ltb_spec, leb_spec. unfold SFltb, SFleb. intros Hxy Hyz.
  rewrite (SFcompare_Lt_trans (Prim2SF x) (Prim2SF y) (Prim2SF z)); trivial.
  - destruct (SFcompare (Prim2SF x) (Prim2SF y)) as [[]|]; congruence.
  - destruct (SFcompare (Prim2SF y) (Prim2SF z)) as [[]|]; auto; discriminate.
Qed.

Lemma leb_trans x y z :
  (x <=? y) = true -> (y <=? z) = true -> (x <=? z) = true.
Proof.
  rewrite !leb_spec. unfold SFleb. intros Hxy Hyz.
  destruct (SFcompare_Le_trans (Prim2SF x) (Prim2SF y) (Prim2SF z)) as [H|H].
  - destruct (SFcompare (Prim2SF x) (Prim2SF y)) as [[]|]; auto; discriminate.
  - destruct (SFcompare (Prim2SF y) (Prim2SF z)) as [[]|]; auto; discriminate.
  - now rewrite H.
  - now rewrite H.
Qed.

Lemma ltb_asym x y : (x <? y) = true -> (y <? x) = false.
Proof.
  rewrite !ltb_spec. unfold SFltb.
  rewrite (SFcompare_antisym (Prim2SF x) (Prim2SF y)).
  destruct (SFcompare (Prim2SF x) (Prim2SF y)) as [[]|]; simpl; congruence.
Qed.

Lemma Prim2SF_zero : Prim2SF 0 = S754_zero false.
Proof. reflexivity. Qed.

Lemma eqb_zero_SF x : (x =? 0) = true <-> SFis_zero (Prim2SF x) = true.
Proof.
  rewrite eqb_spec, Prim2SF_zero. unfold SFeqb.
  destruct (Prim2SF x) as [s|s| |s m e]; simpl; try (destruct s); split; congruence.
Qed.

Lemma div_zero_pos d : (0 <? d) = true -> 0 / d = 0.
Proof.
  rewrite ltb_spec, Prim2SF_zero. intros H.
  apply Prim2SF_inj. rewrite div_spec, Prim2SF_zero.
  unfold SFltb in H.
  destruct (Prim2SF d) as [s|s| |s m e]; simpl in *; try discriminate;
    destruct s; try discriminate; reflexivity.
Qed.

(** ** NaN, zeros and the arithmetic *)

Lemma add_not_nan x y : is_nan (x + y) = false -> is_nan x = false /\ is_nan y = false.
Proof.
  rewrite !not_nan_SF, add_spec. intros H.
  split; intros E; rewrite E in H; apply H; [reflexivity | now destruct (Prim2SF x)].
Qed.

Lemma mul_not_nan x y : is_nan (x * y) = false -> is_nan x = false /\ is_nan y = false.
Proof.
  rewrite !not_nan_SF, mul_spec. intros H.
  split; intros E; rewrite E in H; apply H; [reflexivity | now destruct (Prim2SF x)].
Qed.

Lemma div_not_nan x y : is_nan (x / y) = false -> is_nan x = false /\ is_nan y = false.
Proof.
  rewrite !not_nan_SF, div_spec. intros H.
  split; intros E; rewrite E in H; apply H; [reflexivity | now destruct (Prim2SF x)].
Qed.

Lemma mul_zero_l z x :
  (z =? 0) = true -> is_nan (z * x) = false -> (z * x =? 0) = true.
Proof.
  rewrite !eqb_zero_SF, not_nan_SF, mul_spec.
  destruct (Prim2SF z) as [s|s| |s m e]; try discriminate. intros _.
  destruct (Prim2SF x) as [s'|s'| |s' m' e']; simpl; congruence.
Qed.

Lemma div_zero_l z d :
  (z =? 0) = true -> is_nan (z / d) = false -> (z / d =? 0) = true.
Proof.
  rewrite !eqb_zero_SF, not_nan_SF, div_spec.
  destruct (Prim2SF z) as [s|s| |s m e]; try discriminate. intros _.
  destruct (Prim2SF d) as [s'|s'| |s' m' e']; simpl; congruence.
Qed.

Lemma add_zero_r x z : (z =? 0) = true -> same_number (x + z) x.
Proof.
  rewrite eqb_zero_SF. intros Hz. unfold same_number.
  rewrite !eqb_zero_SF, add_spec.
  destruct (Prim2SF z) as [s|s| |s m e] eqn:Ez; try discriminate.
  destruct (Prim2SF x) as [s'|s'| |s' m' e'] eqn:Ex.
  - right. split; [|reflexivity]. now destruct s', s.
  - left. apply Prim2SF_inj. rewrite add_spec, Ex, Ez. reflexivity.
  - left. apply Prim2SF_inj. rewrite add_spec, Ex, Ez. reflexivity.
  - left. apply Prim2SF_inj. rewrite add_spec, Ex, Ez. reflexivity.
Qed.

Lemma add_zero_l x z : (z =? 0) = true -> same_number (z + x) x.
Proof.
  rewrite eqb_zero_SF. intros Hz. unfold same_number.
  rewrite !eqb_zero_SF, add_spec.
  destruct (Prim2SF z) as [s|s| |s m e] eqn:Ez; try discriminate.
  destruct (Prim2SF x) as [s'|s'| |s' m' e'] eqn:Ex.
  - right. split; [|reflexivity]. now destruct s', s.
  - left. apply Prim2SF_inj. rewrite add_spec, Ex, Ez. reflexivity.
  - left. apply Prim2SF_inj. rewrite add_spec, Ex, Ez. reflexivity.
  - left. apply Prim2SF_inj. rewrite add_spec, Ex, Ez. reflexivity.
Qed.

Lemma same_number_refl x : same_number x x.
Proof. now left. Qed.

Lemma same_number_sym x y : same_number x y -> same_number y x.
Proof. intros [->|[H1 H2]]; [now left | now right]. Qed.

Lemma same_number_trans x y z : same_number x y -> same_number y z -> same_number x z.
Proof.
  intros [->|[H1 H2]] [->|[H3 H4]]; try (now left); try (right; split; assumption).
Qed.

Lemma same_number_zero x y : same_number x y -> (y =? 0) = true -> (x =? 0) = true.
Proof. intros [->|[H1 H2]] H; assumption. Qed.

Lemma same_number_add a a' b b' :
  same_number a a' -> same_number b b' -> same_number (a + b) (a' + b').
Proof.
  intros [->|[Ha Ha']] [->|[Hb Hb']].
  - apply same_number_refl.
  - eapply same_number_trans; [apply add_zero_r, Hb|].
    apply same_number_sym, add_zero_r, Hb'.
  - eapply same_number_trans; [apply add_zero_l, Ha|].
    apply same_number_sym, add_zero_l, Ha'.
  - right. split.
    + eapply same_number_zero; [apply add_zero_r, Hb | exact Ha].
    + eapply same_number_zero; [apply add_zero_r, Hb' | exact Ha'].
Qed.

Lemma SFcompare_zero_l s s' y : SFcompare (S754_zero s) y = SFcompare (S754_zero s') y.
Proof. now destruct y. Qed.

Lemma SFcompare_zero_r s s' x : SFcompare x (S754_zero s) = SFcompare x (S754_zero s').
Proof. now destruct x. Qed.

Lemma same_number_SFcompare_l x x' y :
  same_number x x' -> SFcompare (Prim2SF x) y = SFcompare (Prim2SF x') y.
Proof.
  intros [->|[H H']]; [reflexivity|].
  rewrite eqb_zero_SF in H, H'.
  destruct (Prim2SF x); try discriminate. destruct (Prim2SF x'); try discriminate.
  apply SFcompare_zero_l.
Qed.

Lemma same_number_SFcompare_r x y y' :
  same_number y y' -> SFcompare x (Prim2SF y) = SFcompare x (Prim2SF y').
Proof.
  intros [->|[H H']]; [reflexivity|].
  rewrite eqb_zero_SF in H, H'.
  destruct (Prim2SF y); try discriminate. destruct (Prim2SF y'); try discriminate.
  apply SFcompare_zero_r.
Qed.

Lemma same_number_ltb_l x x' y : same_number x x' -> (x <? y) = (x' <? y).
Proof.
  intros H. rewrite !ltb_spec. unfold SFltb.
  now rewrite (same_number_SFcompare_l x x' _ H).
Qed.

Lemma same_number_ltb_r x y y' : same_number y y' -> (x <? y) = (x <? y').
Proof.
  intros H. rewrite !ltb_spec. unfold SFltb.
  now rewrite (same_number_SFcompare_r _ y y' H).
Qed.

Lemma same_number_eqb x y : same_number x y -> is_nan x = false -> (x =? y) = true.
Proof.
  intros H Hn. rewrite eqb_spec. unfold SFeqb.
  rewrite <- (same_number_SFcompare_r _ x y H).
  apply not_nan_SF in Hn. now rewrite SFcompare_refl.
Qed.

Lemma same_number_nonzero x y : same_number x y -> (y =? 0) = false -> x = y.
Proof. intros [->|[H1 H2]] H; [reflexivity | congruence]. Qed.

(** * Facts about [Update] *)

(** ** The three ways through [Update] *)

Ltac unfold_Update :=
  unfold Update, Primary.Update, Guarded.Update, elapsed, stamp, raw_output,
    candidate_integral, clamp, saturation in *;
  cbv zeta in *.

Ltac simpl_fields :=
  cbn [Kp Ki Kd MinOutput MaxOutput Deadband Saturated AntiWindup prevError
       integral lastTime lastOutput set_Saturated set_prevError set_integral
       set_lastTime set_lastOutput fst snd] in *.

(** The clock did not advance: lines 42-44. *)
Lemma Update_no_time r pid now now' setpoint measured :
  (elapsed pid now now' <=? 0) = true ->
  Update r pid now now' setpoint measured = (lastOutput pid, stamp pid now).
Proof.
  intros Hdt. destruct r; unfold_Update;
    destruct (time.IsZero (lastTime pid)); rewrite Hdt; reflexivity.
Qed.

(** The error is within the deadband: lines 49-51. *)
Lemma Update_deadband r pid now now' setpoint measured :
  (elapsed pid now now' <=? 0) = false ->
  (abs (setpoint - measured) <? Deadband pid) = true ->
  Update r pid now now' setpoint measured = (lastOutput pid, stamp pid now).
Proof.
  intros Hdt Hdb. destruct r; unfold_Update;
    destruct (time.IsZero (lastTime pid)); simpl_fields;
    rewrite Hdt, Hdb; reflexivity.
Qed.

(** Neither of them: lines 53-88. *)
Lemma Update_full r pid now now' setpoint measured :
  (elapsed pid now now' <=? 0) = false ->
  (abs (setpoint - measured) <? Deadband pid) = false ->
  Update r pid now now' setpoint measured =
    let dt := elapsed pid now now' in
    let error := setpoint - measured in
    let raw := raw_output r pid dt error in
    let saturated := saturation pid raw error in
    (clamp pid raw,
     mkPID (Kp pid) (Ki pid) (Kd pid) (MinOutput pid) (MaxOutput pid)
           (Deadband pid) saturated (AntiWindup pid) error
           (if AntiWindup pid && negb saturated
            then candidate_integral r pid dt error else integral pid)
           now (clamp pid raw)).
Proof.
  intros Hdt Hdb. destruct r; unfold_Update; destruct pid; simpl_fields;
    destruct (time.IsZero lastTime0); simpl_fields; rewrite Hdt, Hdb;
    repeat match goal with
           | |- context [?a <? ?b] => destruct (a <? b); simpl_fields
           end;
    destruct AntiWindup0; reflexivity.
Qed.

Ltac Update_paths r pid now now' setpoint measured :=
  let Hdt := fresh "Hdt" in
  let Hdb := fresh "Hdb" in
  destruct (elapsed pid now now' <=? 0) eqn:Hdt;
    [ rewrite (Update_no_time r pid now now' setpoint measured Hdt)
    | destruct (abs (setpoint - measured) <? Deadband pid) eqn:Hdb;
      [ rewrite (Update_deadband r pid now now' setpoint measured Hdt Hdb)
      | rewrite (Update_full r pid now now' setpoint measured Hdt Hdb);
        cbv zeta ] ].

(** ** What [stamp] changes *)

Lemma stamp_eq pid now :
  stamp pid now =
  set_lastTime pid (if time.IsZero (lastTime pid) then now else lastTime pid).
Proof. unfold stamp. destruct pid; simpl_fields. now destruct (time.IsZero _). Qed.

Lemma stamp_lastOutput pid now : lastOutput (stamp pid now) = lastOutput pid.
Proof. now rewrite stamp_eq. Qed.

Lemma stamp_is_set pid now :
  time.IsZero now = false -> time.IsZero (lastTime (stamp pid now)) = false.
Proof.
  intros H. rewrite stamp_eq. simpl_fields.
  destruct (time.IsZero (lastTime pid)) eqn:E; assumption.
Qed.

(** ** What every call of [Update] leaves behind *)

(** The value returned is the one kept in [lastOutput]. *)
Lemma Update_lastOutput r pid now now' setpoint measured :
  lastOutput (snd (Update r pid now now' setpoint measured)) =
  fst (Update r pid now now' setpoint measured).
Proof.
  Update_paths r pid now now' setpoint measured; simpl_fields;
    try apply stamp_lastOutput; reflexivity.
Qed.

(** After a call at a set instant, [lastTime] is set. *)
Lemma Update_lastTime_set r pid now now' setpoint measured :
  time.IsZero now = false ->
  time.IsZero (lastTime (snd (Update r pid now now' setpoint measured))) = false.
Proof.
  intros H. Update_paths r pid now now' setpoint measured; simpl_fields;
    try apply stamp_is_set; assumption.
Qed.

(** The parameters, [Saturated] apart, are not assigned. *)
Lemma Update_parameters r pid now now' setpoint measured :
  let pid' := snd (Update r pid now now' setpoint measured) in
  Kp pid' = Kp pid /\ Ki pid' = Ki pid /\ Kd pid' = Kd pid /\
  MinOutput pid' = MinOutput pid /\ MaxOutput pid' = MaxOutput pid /\
  Deadband pid' = Deadband pid /\ AntiWindup pid' = AntiWindup pid.
Proof.
  cbv zeta. Update_paths r pid now now' setpoint measured; simpl_fields;
    rewrite ?stamp_eq; simpl_fields; repeat split.
Qed.

(** The accumulator after a call that reaches line 79: it is assigned the
    local [integral] when [AntiWindup] is set and the new flag is clear,
    and in no other case. *)
Lemma Update_integral r pid now now' setpoint measured :
  (elapsed pid now now' <=? 0) = false ->
  (abs (setpoint - measured) <? Deadband pid) = false ->
  let pid' := snd (Update r pid now now' setpoint measured) in
  integral pid' =
  if AntiWindup pid && negb (Saturated pid')
  then candidate_integral r pid (elapsed pid now now') (setpoint - measured)
  else integral pid.
Proof.
  intros Hdt Hdb. cbv zeta. rewrite (Update_full r pid now now' _ _ Hdt Hdb).
  reflexivity.
Qed.

(** * The properties of the specification *)

(** ** Reset *)

(** C9.  [Reset] sets the previous error and the integral accumulator to 0
    and the last-update time to the current time (which is unset only if
    the clock itself reads the zero time), and changes nothing else: the
    last output and the saturation flag, like the parameters, keep the
    values they had. *)
Theorem Reset_clears_error_integral_time_only pid now :
  let pid' := Reset pid now in
  prevError pid' = 0 /\
  integral pid' = 0 /\
  lastTime pid' = now /\
  time.IsZero (lastTime pid') = time.IsZero now /\
  lastOutput pid' = lastOutput pid /\
  Saturated pid' = Saturated pid /\
  pid' = mkPID (Kp pid) (Ki pid) (Kd pid) (MinOutput pid) (MaxOutput pid)
               (Deadband pid) (Saturated pid) (AntiWindup pid)
               0 0 now (lastOutput pid).
Proof. repeat split. Qed.

(** ** The two early returns *)

(** C5, as amended.  When the elapsed time [dt] that [Update] computes is
    zero or negative, the call returns the last output and leaves the
    previous error, the integral accumulator, the last output and the
    saturation flag as they were; the last-update time is left as it was
    too unless it was unset, in which case the call has set it to the
    current time.  In particular a call with no elapsed time that follows
    another call (made at a set instant) returns the same output and leaves
    the struct as that call left it. *)
Theorem Update_without_elapsed_time r pid now now' setpoint measured :
  (elapsed pid now now' <=? 0) = true ->
  let res := Update r pid now now' setpoint measured in
  fst res = lastOutput pid /\
  prevError (snd res) = prevError pid /\
  integral (snd res) = integral pid /\
  lastOutput (snd res) = lastOutput pid /\
  Saturated (snd res) = Saturated pid /\
  lastTime (snd res) =
    (if time.IsZero (lastTime pid) then now else lastTime pid) /\
  snd res = set_lastTime pid (lastTime (snd res)) /\
  (time.IsZero (lastTime pid) = false -> snd res = pid) /\
  (forall pid0 n0 n0' s0 m0,
      time.IsZero n0 = false ->
      pid = snd (Update r pid0 n0 n0' s0 m0) ->
      res = Update r pid0 n0 n0' s0 m0).
Proof.
  intros Hdt. cbv zeta. rewrite (Update_no_time r pid now now' _ _ Hdt).
  simpl_fields. rewrite stamp_eq. simpl_fields.
  repeat split.
  - intros ->. now destruct pid.
  - intros pid0 n0 n0' s0 m0 Hn0 ->.
    rewrite Update_lastOutput, (Update_lastTime_set r pid0 n0 n0' s0 m0 Hn0).
    destruct (Update r pid0 n0 n0' s0 m0) as [out [ ]]. reflexivity.
Qed.

(** A call that sees no elapsed time after a first full update: the output
    5 again, the struct untouched. *)
Lemma Update_without_elapsed_time_witness :
  let pid := snd (Update primary (literal 1 0 0 (-100) 100 0 false false)
                         t0 (after t0 time.Microsecond) 10 5) in
  (elapsed pid t0 t0 <=? 0) = true /\
  Update primary pid t0 t0 12 5 = (5, pid).
Proof.
  cbv zeta. split; [reflexivity|].
  set (pid0 := literal 1 0 0 (-100) 100 0 false false).
  set (pid := snd (Update primary pid0 t0 (after t0 time.Microsecond) 10 5)).
  destruct (Update_without_elapsed_time primary pid t0 t0 12 5 eq_refl)
    as (_ & _ & _ & _ & _ & _ & _ & _ & Hsame).
  rewrite (Hsame pid0 t0 (after t0 time.Microsecond) 10 5 eq_refl eq_refl).
  reflexivity.
Defined.

(** The first call on a fresh controller, with a clock that reads the same
    instant twice: no time has elapsed, the output is the last output, and
    yet the call has assigned the last-update time. *)
Lemma Update_without_elapsed_time_sets_unset_lastTime :
  let pid := literal 1 0 0 (-100) 100 0 false false in
  (elapsed pid t0 t0 <=? 0) = true /\
  fst (Primary.Update pid t0 t0 10 5) = lastOutput pid /\
  lastTime pid = 0%Z /\
  lastTime (snd (Primary.Update pid t0 t0 10 5)) = t0 /\
  lastTime (snd (Guarded.Update pid t0 t0 10 5)) = t0 /\
  lastTime (snd (Primary.Update pid t0 t0 10 5)) <> lastTime pid.
Proof. cbv zeta. repeat split. discriminate. Qed.

(** C6, as amended.  When time has elapsed and the absolute error is
    strictly below the deadband, [Update] returns the last output -- the
    value the preceding call returned, 0 for a struct fresh from its
    literal -- and leaves the previous error and the integral accumulator
    as they were; the last-update time is left as it was unless it was
    unset, in which case the call has set it to the current time. *)
Theorem Update_within_deadband r pid now now' setpoint measured :
  (elapsed pid now now' <=? 0) = false ->
  (abs (setpoint - measured) <? Deadband pid) = true ->
  let res := Update r pid now now' setpoint measured in
  fst res = lastOutput pid /\
  (forall pid0 n0 n0' s0 m0,
      pid = snd (Update r pid0 n0 n0' s0 m0) ->
      fst res = fst (Update r pid0 n0 n0' s0 m0)) /\
  (forall kp ki kd lo hi deadband saturated antiwindup,
      pid = literal kp ki kd lo hi deadband saturated antiwindup ->
      fst res = 0) /\
  prevError (snd res) = prevError pid /\
  integral (snd res) = integral pid /\
  lastTime (snd res) =
    (if time.IsZero (lastTime pid) then now else lastTime pid) /\
  snd res = set_lastTime pid (lastTime (snd res)).
Proof.
  intros Hdt Hdb. cbv zeta.
  rewrite (Update_deadband r pid now now' _ _ Hdt Hdb).
  simpl_fields. rewrite stamp_eq. simpl_fields.
  repeat split.
  - intros pid0 n0 n0' s0 m0 ->. apply Update_lastOutput.
  - intros kp ki kd lo hi deadband saturated antiwindup ->. reflexivity.
Qed.

(** One second after a [Reset], deadband 2 and error 1: the output is the
    last output, 0, and the last-update time stays that of the [Reset]. *)
Lemma Update_within_deadband_witness :
  let pid := Reset (literal 1 0 0 (-100) 100 2 false false) t0 in
  (elapsed pid t1 t1 <=? 0) = false /\
  (abs (10 - 9) <? Deadband pid) = true /\
  fst (Update primary pid t1 t1 10 9) = 0 /\
  lastTime (snd (Update primary pid t1 t1 10 9)) = t0.
Proof.
  cbv zeta. split; [reflexivity|]. split; [reflexivity|].
  set (pid := Reset _ t0).
  destruct (Update_within_deadband primary pid t1 t1 10 9 eq_refl eq_refl)
    as (Hout & _ & _ & _ & _ & Htime & _).
  split; [exact Hout | exact Htime].
Defined.

(** The first call on a fresh controller with a deadband of 2 and an error
    of 1, a microsecond between the two readings of the clock: the call
    returns through the deadband and has assigned the last-update time. *)
Lemma Update_within_deadband_sets_unset_lastTime :
  let pid := literal 1 0 0 (-100) 100 2 false false in
  let now := t0 in
  let now' := after t0 time.Microsecond in
  (0 <? elapsed pid now now') = true /\
  (abs (10 - 9) <? Deadband pid) = true /\
  fst (Primary.Update pid now now' 10 9) = 0 /\
  lastTime pid = 0%Z /\
  lastTime (snd (Primary.Update pid now now' 10 9)) = t0 /\
  lastTime (snd (Guarded.Update pid now now' 10 9)) = t0 /\
  lastTime (snd (Primary.Update pid now now' 10 9)) <> lastTime pid.
Proof. cbv zeta. repeat split. discriminate. Qed.

(** ** The limits *)

(** C7.  On a call that reaches the limits (lines 66-77): a raw output
    above the maximum is replaced by the maximum and the flag becomes
    [error > 0]; otherwise a raw output below the minimum is replaced by the
    minimum and the flag becomes [error < 0] (when minimum <= maximum the
    first test cannot interfere); otherwise the raw output is returned and
    the flag is cleared.  With gains 10, 0, 0, limits [-20, 20], setpoint 10
    and measured 5, on a controller that is fresh or has been called with
    these inputs before (nothing accumulated, previous error 0 or 5),
    whatever positive time has elapsed, the raw output is 50, the output 20
    and the flag set. *)
Theorem Update_limits_and_flag r :
  (forall pid now now' setpoint measured,
      (elapsed pid now now' <=? 0) = false ->
      (abs (setpoint - measured) <? Deadband pid) = false ->
      let error := setpoint - measured in
      let raw := raw_output r pid (elapsed pid now now') error in
      let res := Update r pid now now' setpoint measured in
      ((MaxOutput pid <? raw) = true ->
       fst res = MaxOutput pid /\ Saturated (snd res) = (0 <? error)) /\
      ((MaxOutput pid <? raw) = false -> (raw <? MinOutput pid) = true ->
       fst res = MinOutput pid /\ Saturated (snd res) = (error <? 0)) /\
      ((MinOutput pid <=? MaxOutput pid) = true ->
       (raw <? MinOutput pid) = true ->
       fst res = MinOutput pid /\ Saturated (snd res) = (error <? 0)) /\
      ((MaxOutput pid <? raw) = false -> (raw <? MinOutput pid) = false ->
       fst res = raw /\ Saturated (snd res) = false)) /\
  (forall saturated antiwindup previous last out0 now now',
      let pid := mkPID 10 0 0 (-20) 20 0 saturated antiwindup
                       previous 0 last out0 in
      let res := Update r pid now now' 10 5 in
      previous = 0 \/ previous = 5 ->
      (0 <? elapsed pid now now') = true ->
      raw_output r pid (elapsed pid now now') (10 - 5) = 50 /\
      fst res = 20 /\ Saturated (snd res) = true).
Proof.
  split.
  - intros pid now now' setpoint measured Hdt Hdb. cbv zeta.
    rewrite (Update_full r pid now now' _ _ Hdt Hdb). cbv zeta.
    unfold clamp, saturation. simpl_fields.
    set (raw := raw_output r pid _ _).
    assert (Hmin : (MaxOutput pid <? raw) = false ->
                   (raw <? MinOutput pid) = true ->
                   (if MaxOutput pid <? raw then MaxOutput pid
                    else if raw <? MinOutput pid then MinOutput pid else raw)
                   = MinOutput pid /\
                   (if MaxOutput pid <? raw then 0 <? setpoint - measured
                    else if raw <? MinOutput pid then setpoint - measured <? 0
                         else false) = (setpoint - measured <? 0))
      by (intros -> ->; split; reflexivity).
    split; [| split; [| split]].
    + intros ->. split; reflexivity.
    + exact Hmin.
    + intros Hle Hm. apply Hmin; trivial.
      apply ltb_asym. apply (ltb_leb_trans _ _ _ Hm Hle).
    + intros -> ->. split; reflexivity.
  - intros saturated antiwindup previous last out0 now now' pid res Hprev Hdt.
    subst res.
    rewrite Update_full; [| apply ltb_leb_false, Hdt | reflexivity].
    cbv zeta. set (dt := elapsed pid now now') in *. clearbody dt.
    destruct Hprev as [-> | ->];
      destruct r; unfold raw_output, clamp, saturation, pid;
      simpl_fields; cbn; rewrite ?(div_zero_pos dt Hdt); cbn; repeat split.
Qed.

(** The saturation scenario on the first call of a fresh controller, a
    microsecond between the two readings of the clock. *)
Lemma Update_limits_and_flag_witness :
  let pid := literal 10 0 0 (-20) 20 0 false false in
  (0 <? elapsed pid t0 (after t0 time.Microsecond)) = true /\
  fst (Update primary pid t0 (after t0 time.Microsecond) 10 5) = 20 /\
  Saturated (snd (Update primary pid t0 (after t0 time.Microsecond) 10 5)) = true.
Proof.
  split; [reflexivity|].
  apply (proj2 (Update_limits_and_flag primary) false false 0 0%Z 0
               t0 (after t0 time.Microsecond));
    [left|]; reflexivity.
Defined.

(** ** The integral term and the accumulator *)

(** The limits treat the two zeros alike. *)
Lemma clamp_same_number pid raw raw' :
  same_number raw raw' -> same_number (clamp pid raw) (clamp pid raw').
Proof.
  intros H. unfold clamp.
  rewrite <- (same_number_ltb_r (MaxOutput pid) raw raw' H).
  rewrite <- (same_number_ltb_l raw raw' (MinOutput pid) H).
  destruct (MaxOutput pid <? raw); [apply same_number_refl|].
  destruct (raw <? MinOutput pid); [apply same_number_refl | exact H].
Qed.

(** C4, as amended.  On a call that reaches the computation of the terms,
    the output is the limited sum of the proportional term, the integral
    term and the derivative term, and the local [integral] computed in the
    same call is no part of it.  In the first revision the integral term is
    the integral gain times the accumulator as it was before the call.  In
    the second revision it is that product when the gain is not zero and
    the literal 0 when it is: the same number as the product, and an output
    that is the same number, whenever the product is a number, that is,
    unless the accumulator is infinite or NaN. *)
Theorem Update_integral_term_lags pid now now' setpoint measured :
  (elapsed pid now now' <=? 0) = false ->
  (abs (setpoint - measured) <? Deadband pid) = false ->
  let dt := elapsed pid now now' in
  let error := setpoint - measured in
  fst (Primary.Update pid now now' setpoint measured) =
    clamp pid (Kp pid * error
               + Ki pid * integral pid
               + Kd pid * (error - prevError pid) / dt) /\
  fst (Guarded.Update pid now now' setpoint measured) =
    clamp pid (Kp pid * error
               + (if Ki pid =? 0 then 0 else Ki pid * integral pid)
               + (if Kd pid =? 0 then 0
                  else Kd pid * (error - prevError pid) / dt)) /\
  (is_nan (Ki pid * integral pid) = false ->
   same_number (if Ki pid =? 0 then 0 else Ki pid * integral pid)
               (Ki pid * integral pid)) /\
  ((Ki pid =? 0) = false ->
   fst (Guarded.Update pid now now' setpoint measured) =
     clamp pid (Kp pid * error
                + Ki pid * integral pid
                + (if Kd pid =? 0 then 0
                   else Kd pid * (error - prevError pid) / dt))) /\
  (is_nan (Ki pid * integral pid) = false ->
   same_number
     (fst (Guarded.Update pid now now' setpoint measured))
     (clamp pid (Kp pid * error
                 + Ki pid * integral pid
                 + (if Kd pid =? 0 then 0
                    else Kd pid * (error - prevError pid) / dt)))).
Proof.
  intros Hdt Hdb. cbv zeta.
  assert (Hterm : is_nan (Ki pid * integral pid) = false ->
                  same_number (if Ki pid =? 0 then 0 else Ki pid * integral pid)
                              (Ki pid * integral pid)).
  { intros Hnan. destruct (Ki pid =? 0) eqn:HKi; [|apply same_number_refl].
    right. split; [reflexivity | now apply mul_zero_l]. }
  assert (Hguarded :
            fst (Guarded.Update pid now now' setpoint measured) =
            clamp pid (Kp pid * (setpoint - measured)
                       + (if Ki pid =? 0 then 0 else Ki pid * integral pid)
                       + (if Kd pid =? 0 then 0
                          else Kd pid * (setpoint - measured - prevError pid)
                               / elapsed pid now now'))).
  { change (Guarded.Update pid now now' setpoint measured)
      with (Update guarded pid now now' setpoint measured).
    rewrite (Update_full guarded pid now now' _ _ Hdt Hdb). cbv zeta.
    unfold raw_output. simpl_fields.
    destruct (Ki pid =? 0), (Kd pid =? 0); reflexivity. }
  split; [| split; [| split; [| split]]].
  - change (Primary.Update pid now now' setpoint measured)
      with (Update primary pid now now' setpoint measured).
    rewrite (Update_full primary pid now now' _ _ Hdt Hdb). reflexivity.
  - exact Hguarded.
  - exact Hterm.
  - intros HKi. rewrite Hguarded, HKi. reflexivity.
  - intros Hnan. rewrite Hguarded.
    apply clamp_same_number, same_number_add; [apply same_number_add|].
    + apply same_number_refl.
    + exact (Hterm Hnan).
    + apply same_number_refl.
Qed.

(** A controller with anti-windup, one second after a [Reset] and one
    second later again: the first call accumulates 2.5 and puts none of it
    in its output; the second call's integral term is 0.1 * 2.5. *)
Lemma Update_integral_term_lags_witness :
  let pid0 := Reset (literal 1 0.1 0 (-100) 100 0 false true) t0 in
  let pid1 := snd (Primary.Update pid0 t1 t1 10 5) in
  (fst (Primary.Update pid0 t1 t1 10 5) = 5 /\ integral pid1 = 2.5) /\
  fst (Primary.Update pid1 t2 t2 10 5) = 5.25 /\
  fst (Guarded.Update pid1 t2 t2 10 5) = 5.25.
Proof.
  cbv zeta. split; [split; reflexivity|].
  set (pid1 := snd (Primary.Update _ t1 t1 10 5)).
  destruct (Update_integral_term_lags pid1 t2 t2 10 5) as (H1 & H2 & _);
    [reflexivity | reflexivity |].
  rewrite H1, H2. split; reflexivity.
Defined.

(** The second revision with integral gain 0 and an accumulator that has
    overflowed.  A controller with gains 1, 0, 0, limits [-1e308, 1e308]
    and anti-windup, four seconds after a [Reset], setpoint 9e307 and
    measured 0: the output 9e307 is within the limits and the trapezoidal
    rule, 0.5 * 4 * 9e307, overflows, so the accumulator becomes +infinity.
    One second later, setpoint 1 and measured 0: the call reaches the
    terms, the integral gain times the accumulator is 0 * infinity = NaN,
    and the call returns 1: its integral term is the literal 0 of lines
    160-164.  (The first revision returns NaN from the same struct.) *)
Lemma Guarded_Update_zero_gain_skips_infinite_integral :
  let pid0 := Reset (literal 1 0 0 (-1e308) 1e308 0 false true) t0 in
  let t4 := after t0 (4 * time.Second)%Z in
  let t5 := after t4 time.Second in
  let pid1 := snd (Guarded.Update pid0 t4 t4 9e307 0) in
  let dt := elapsed pid1 t5 t5 in
  let error := 1 - 0 in
  fst (Guarded.Update pid0 t4 t4 9e307 0) = 9e307 /\
  integral pid1 = infinity /\
  (dt <=? 0) = false /\
  (abs error <? Deadband pid1) = false /\
  Ki pid1 * integral pid1 = nan /\
  clamp pid1 (Kp pid1 * error + Ki pid1 * integral pid1
              + Kd pid1 * (error - prevError pid1) / dt) = nan /\
  fst (Guarded.Update pid1 t5 t5 1 0) = 1 /\
  fst (Primary.Update pid1 t5 t5 1 0) = nan.
Proof. cbv zeta. repeat split. Qed.

(** C1 fails on the code.  Both revisions assign the accumulator under
    [pid.AntiWindup && !pid.Saturated] (lines 84 and 183): with anti-windup
    disabled the accumulator is never advanced.  A controller with gains
    1, 0.1, 0 and limits [-100, 100], anti-windup disabled, one second after
    a [Reset], setpoint 10 and measured 5: the call reaches the state update
    (the previous error becomes 5), the output 5 is not saturated, the
    trapezoidal rule gives 2.5, and the accumulator stays at 0. *)
Theorem Update_without_antiwindup_never_integrates :
  let pid := Reset (literal 1 0.1 0 (-100) 100 0 false false) t0 in
  let dt := elapsed pid t1 t1 in
  let error := 10 - 5 in
  (dt <=? 0) = false /\
  (abs error <? Deadband pid) = false /\
  AntiWindup pid = false /\
  integral pid + 0.5 * dt * (error + prevError pid) = 2.5 /\
  Primary.Update pid t1 t1 10 5 =
    (5, mkPID 1 0.1 0 (-100) 100 0 false false 5 0 t1 5) /\
  Guarded.Update pid t1 t1 10 5 =
    (5, mkPID 1 0.1 0 (-100) 100 0 false false 5 0 t1 5).
Proof. cbv zeta. repeat split. Qed.

(** What the code does instead, in general. *)
Lemma Update_without_antiwindup_keeps_integral r pid now now' setpoint measured :
  AntiWindup pid = false ->
  integral (snd (Update r pid now now' setpoint measured)) = integral pid.
Proof.
  intros Haw. Update_paths r pid now now' setpoint measured; simpl_fields.
  - now rewrite stamp_eq.
  - now rewrite stamp_eq.
  - now rewrite Haw.
Qed.

(** The first revision accumulates: whenever it advances the accumulator,
    it adds the trapezoidal increment to what was there. *)
Lemma Primary_Update_accumulates pid now now' setpoint measured :
  (elapsed pid now now' <=? 0) = false ->
  (abs (setpoint - measured) <? Deadband pid) = false ->
  AntiWindup pid = true ->
  Saturated (snd (Primary.Update pid now now' setpoint measured)) = false ->
  integral (snd (Primary.Update pid now now' setpoint measured)) =
  integral pid
  + 0.5 * elapsed pid now now' * (setpoint - measured + prevError pid).
Proof.
  intros Hdt Hdb Haw Hsat.
  change (Primary.Update pid now now' setpoint measured)
    with (Update primary pid now now' setpoint measured) in *.
  rewrite (Update_integral primary pid now now' _ _ Hdt Hdb). cbv zeta.
  now rewrite Haw, Hsat.
Qed.

(** C3 fails on the second revision, whose line 161 leaves [pid.integral]
    out of the sum.  A controller with gains 1, 0.1, 0, limits [-100, 100]
    and anti-windup, called one and two seconds after a [Reset] with
    setpoint 10 and measured 5: the first call accumulates 2.5; the second
    should reach 2.5 + 0.5 * 1 * (5 + 5) = 7.5, as it does in the first
    revision, and stores 5. *)
Theorem Guarded_Update_forgets_accumulated_integral :
  let pid0 := Reset (literal 1 0.1 0 (-100) 100 0 false true) t0 in
  let pid1 := snd (Guarded.Update pid0 t1 t1 10 5) in
  let pid2 := snd (Guarded.Update pid1 t2 t2 10 5) in
  let dt := elapsed pid1 t2 t2 in
  let error := 10 - 5 in
  pid1 = mkPID 1 0.1 0 (-100) 100 0 false true 5 2.5 t1 5 /\
  (dt <=? 0) = false /\
  (abs error <? Deadband pid1) = false /\
  integral pid1 + 0.5 * dt * (error + prevError pid1) = 7.5 /\
  pid2 = mkPID 1 0.1 0 (-100) 100 0 false true 5 5 t2 5.25 /\
  snd (Primary.Update pid1 t2 t2 10 5) =
    mkPID 1 0.1 0 (-100) 100 0 false true 5 7.5 t2 5.25.
Proof. cbv zeta. repeat split. Qed.

(** ** The output and the limits *)

Lemma clamp_not_nan pid raw :
  is_nan (clamp pid raw) = false -> is_nan raw = false.
Proof.
  unfold clamp.
  destruct (MaxOutput pid <? raw) eqn:Hmax;
    [intros _; apply (ltb_not_nan _ _ Hmax)|].
  destruct (raw <? MinOutput pid) eqn:Hmin;
    [intros _; apply (ltb_not_nan _ _ Hmin)|].
  trivial.
Qed.

(** With minimum <= maximum, what the limits let through is within them,
    or it is NaN (which no comparison stops). *)
Lemma clamp_within_limits pid raw :
  (MinOutput pid <=? MaxOutput pid) = true ->
  is_nan (clamp pid raw) = true \/ within_limits pid (clamp pid raw).
Proof.
  intros Hle. destruct (leb_not_nan _ _ Hle) as [Hmin Hmax].
  unfold clamp, within_limits.
  destruct (MaxOutput pid <? raw) eqn:Hhi.
  - right. split; [exact Hle | apply leb_refl, Hmax].
  - destruct (raw <? MinOutput pid) eqn:Hlo.
    + right. split; [apply leb_refl, Hmin | exact Hle].
    + destruct (is_nan raw) eqn:Hnan; [now left | right].
      split; apply ltb_false_leb; assumption.
Qed.

(** With minimum <= maximum the limits themselves are numbers, so what the
    limits let through is NaN exactly when the raw output is. *)
Lemma clamp_is_nan pid raw :
  (MinOutput pid <=? MaxOutput pid) = true ->
  is_nan (clamp pid raw) = is_nan raw.
Proof.
  intros Hle. destruct (leb_not_nan _ _ Hle) as [Hmin Hmax].
  unfold clamp.
  destruct (MaxOutput pid <? raw) eqn:Hhi;
    [rewrite Hmax; symmetry; apply (ltb_not_nan _ _ Hhi)|].
  destruct (raw <? MinOutput pid) eqn:Hlo;
    [rewrite Hmin; symmetry; apply (ltb_not_nan _ _ Hlo)|].
  reflexivity.
Qed.

(** One call: the value returned is NaN or within the limits, or the call
    returned early with the last output. *)
Lemma Update_output_cases r pid now now' setpoint measured :
  (MinOutput pid <=? MaxOutput pid) = true ->
  let out := fst (Update r pid now now' setpoint measured) in
  (is_nan out = true \/ within_limits pid out) \/
  (out = lastOutput pid /\
   ((elapsed pid now now' <=? 0) = true \/
    (abs (setpoint - measured) <? Deadband pid) = true)).
Proof.
  intros Hle. cbv zeta.
  Update_paths r pid now now' setpoint measured; simpl_fields.
  - right. split; [reflexivity | now left].
  - right. split; [reflexivity | now right].
  - left. now apply clamp_within_limits.
Qed.

(** One call: if the last output is within the limits or NaN, so is the
    value returned. *)
Lemma Update_output_limited r pid now now' setpoint measured :
  (MinOutput pid <=? MaxOutput pid) = true ->
  is_nan (lastOutput pid) = true \/ within_limits pid (lastOutput pid) ->
  let out := fst (Update r pid now now' setpoint measured) in
  is_nan out = true \/ within_limits pid out.
Proof.
  intros Hle Hlast. cbv zeta.
  destruct (Update_output_cases r pid now now' setpoint measured Hle)
    as [H | [-> _]]; assumption.
Qed.

(** The limits and what [lastOutput] holds, along the calls. *)
Lemma reachable_limits r pid0 pid :
  reachable r pid0 pid ->
  is_nan (lastOutput pid0) = true \/ within_limits pid0 (lastOutput pid0) ->
  (MinOutput pid0 <=? MaxOutput pid0) = true ->
  MinOutput pid = MinOutput pid0 /\ MaxOutput pid = MaxOutput pid0 /\
  (is_nan (lastOutput pid) = true \/ within_limits pid (lastOutput pid)).
Proof.
  intros Hreach H0 Hle.
  induction Hreach as [|pid now now' setpoint measured _ IH|pid now _ IH].
  - auto.
  - destruct IH as (Hmin & Hmax & Hlast).
    destruct (Update_parameters r pid now now' setpoint measured)
      as (_ & _ & _ & Hmin' & Hmax' & _).
    rewrite Hmin', Hmax', Update_lastOutput. repeat split; trivial.
    assert (Hout := Update_output_limited r pid now now' setpoint measured).
    cbv zeta in Hout. rewrite Hmin, Hmax in Hout.
    destruct (Hout Hle Hlast) as [Hnan|[Hlo Hhi]]; [now left | right].
    unfold within_limits. now rewrite Hmin', Hmax'.
  - exact IH.
Qed.

(** The limits are those of the first struct along the calls. *)
Lemma reachable_MinOutput_MaxOutput r pid0 pid :
  reachable r pid0 pid ->
  MinOutput pid = MinOutput pid0 /\ MaxOutput pid = MaxOutput pid0.
Proof.
  intros Hreach.
  induction Hreach as [|pid now now' setpoint measured _ IH|pid now _ IH].
  - auto.
  - destruct (Update_parameters r pid now now' setpoint measured)
      as (_ & _ & _ & Hmin & Hmax & _).
    now rewrite Hmin, Hmax.
  - exact IH.
Qed.

(** What [lastOutput] holds along the calls: the value the first struct
    had there, or NaN, or a value within the limits. *)
Lemma reachable_lastOutput r pid0 pid :
  reachable r pid0 pid ->
  (MinOutput pid0 <=? MaxOutput pid0) = true ->
  lastOutput pid = lastOutput pid0 \/
  is_nan (lastOutput pid) = true \/ within_limits pid0 (lastOutput pid).
Proof.
  intros Hreach Hle.
  induction Hreach as [|pid now now' setpoint measured Hreach IH|pid now _ IH].
  - now left.
  - destruct (reachable_MinOutput_MaxOutput r pid0 pid Hreach) as [Hmin Hmax].
    rewrite Update_lastOutput.
    assert (Hout := Update_output_cases r pid now now' setpoint measured).
    cbv zeta in Hout. unfold within_limits in *. rewrite Hmin, Hmax in Hout.
    destruct (Hout Hle) as [H | [-> _]]; [now right | exact IH].
  - exact IH.
Qed.

(** C2, as amended.  With minimum <= maximum:
    - a call that reaches the limits returns NaN exactly when its raw
      output is NaN, and a value within [minimum, maximum] otherwise,
      whatever the struct held before;
    - after one such call, every call -- by its full path or by either
      early return, with calls of [Reset] in between -- returns a value
      within [minimum, maximum] or NaN;
    - for a controller made by a literal, in every state that calls of
      [Update] and [Reset] lead to, the value returned is NaN, or within
      [minimum, maximum], or it is the 0 that the literal left in
      [lastOutput], handed back by an early return;
    - hence, when minimum <= 0 <= maximum, every value returned is within
      [minimum, maximum] or NaN. *)
Theorem Update_output_within_limits r :
  (forall pid now now' setpoint measured,
      (MinOutput pid <=? MaxOutput pid) = true ->
      (elapsed pid now now' <=? 0) = false ->
      (abs (setpoint - measured) <? Deadband pid) = false ->
      let out := fst (Update r pid now now' setpoint measured) in
      let raw := raw_output r pid (elapsed pid now now') (setpoint - measured) in
      is_nan out = is_nan raw /\
      (is_nan raw = false -> within_limits pid out)) /\
  (forall pid now now' setpoint measured pid' now1 now1' setpoint1 measured1,
      (MinOutput pid <=? MaxOutput pid) = true ->
      (elapsed pid now now' <=? 0) = false ->
      (abs (setpoint - measured) <? Deadband pid) = false ->
      reachable r (snd (Update r pid now now' setpoint measured)) pid' ->
      let out := fst (Update r pid' now1 now1' setpoint1 measured1) in
      is_nan out = true \/ within_limits pid out) /\
  (forall kp ki kd lo hi deadband saturated antiwindup
          pid now now' setpoint measured,
      (lo <=? hi) = true ->
      reachable r (literal kp ki kd lo hi deadband saturated antiwindup) pid ->
      let out := fst (Update r pid now now' setpoint measured) in
      is_nan out = true \/
      ((lo <=? out) = true /\ (out <=? hi) = true) \/
      (out = 0 /\ lastOutput pid = 0 /\
       ((elapsed pid now now' <=? 0) = true \/
        (abs (setpoint - measured) <? Deadband pid) = true))) /\
  (forall kp ki kd lo hi deadband saturated antiwindup
          pid now now' setpoint measured,
      (lo <=? 0) = true -> (0 <=? hi) = true ->
      reachable r (literal kp ki kd lo hi deadband saturated antiwindup) pid ->
      let out := fst (Update r pid now now' setpoint measured) in
      is_nan out = true \/ ((lo <=? out) = true /\ (out <=? hi) = true)).
Proof.
  assert (Hliteral :
    forall kp ki kd lo hi deadband saturated antiwindup
           pid now now' setpoint measured,
      (lo <=? hi) = true ->
      reachable r (literal kp ki kd lo hi deadband saturated antiwindup) pid ->
      let out := fst (Update r pid now now' setpoint measured) in
      is_nan out = true \/
      ((lo <=? out) = true /\ (out <=? hi) = true) \/
      (out = 0 /\ lastOutput pid = 0 /\
       ((elapsed pid now now' <=? 0) = true \/
        (abs (setpoint - measured) <? Deadband pid) = true))).
  { intros kp ki kd lo hi deadband saturated antiwindup
           pid now now' setpoint measured Hle Hreach. cbv zeta.
    destruct (reachable_MinOutput_MaxOutput r _ pid Hreach) as [Hmin Hmax].
    assert (Hlast := reachable_lastOutput r _ pid Hreach).
    assert (Hout := Update_output_cases r pid now now' setpoint measured).
    cbv zeta in Hout. unfold within_limits, literal in *. simpl_fields.
    rewrite Hmin, Hmax in Hout.
    destruct (Hout Hle) as [[Hnan | Hin] | [Heq Hearly]];
      [now left | now right; left |].
    rewrite Heq.
    destruct (Hlast Hle) as [H0 | [Hnan | Hin]];
      [| now left | now right; left].
    right; right. rewrite H0. repeat split. exact Hearly. }
  split; [| split; [| split]].
  - intros pid now now' setpoint measured Hle Hdt Hdb. cbv zeta.
    rewrite (Update_full r pid now now' _ _ Hdt Hdb). cbv zeta. simpl_fields.
    split; [now apply clamp_is_nan|].
    intros Hraw.
    destruct (clamp_within_limits pid
                (raw_output r pid (elapsed pid now now') (setpoint - measured))
                Hle) as [Hnan | Hin]; [| exact Hin].
    rewrite (clamp_is_nan _ _ Hle), Hraw in Hnan. discriminate.
  - intros pid now now' setpoint measured pid' now1 now1' setpoint1 measured1
           Hle Hdt Hdb Hreach. cbv zeta.
    set (pid1 := snd (Update r pid now now' setpoint measured)) in *.
    destruct (Update_parameters r pid now now' setpoint measured)
      as (_ & _ & _ & Hmin1 & Hmax1 & _). fold pid1 in Hmin1, Hmax1.
    assert (Hlast1 : is_nan (lastOutput pid1) = true \/
                     within_limits pid1 (lastOutput pid1)).
    { unfold pid1 at 1 3. rewrite Update_lastOutput.
      rewrite (Update_full r pid now now' _ _ Hdt Hdb). cbv zeta. simpl_fields.
      unfold within_limits. rewrite Hmin1, Hmax1.
      now apply clamp_within_limits. }
    assert (Hle1 : (MinOutput pid1 <=? MaxOutput pid1) = true)
      by now rewrite Hmin1, Hmax1.
    destruct (reachable_limits r pid1 pid' Hreach Hlast1 Hle1)
      as (Hmin & Hmax & Hlast).
    assert (Hout := Update_output_limited r pid' now1 now1' setpoint1 measured1).
    cbv zeta in Hout. unfold within_limits in *.
    rewrite Hmin, Hmax, Hmin1, Hmax1 in *. now apply Hout.
  - exact Hliteral.
  - intros kp ki kd lo hi deadband saturated antiwindup
           pid now now' setpoint measured Hlo Hhi Hreach. cbv zeta.
    assert (Hle : (lo <=? hi) = true) by exact (leb_trans _ _ _ Hlo Hhi).
    destruct (Hliteral kp ki kd lo hi deadband saturated antiwindup
                pid now now' setpoint measured Hle Hreach)
      as [Hnan | [Hin | (-> & _)]]; [now left | now right |].
    right. now split.
Qed.

(** A controller with limits [5, 10] and deadband 2: the first call reaches
    the limits (raw output 7); the second, one second later and inside the
    deadband, returns early with 7. *)
Lemma Update_output_within_limits_witness :
  let pid0 := literal 1 0 0 5 10 2 false false in
  let pid1 := snd (Update primary pid0 t0 (after t0 time.Microsecond) 10 3) in
  let out := fst (Update primary pid1 t1 t1 10 9) in
  (abs (10 - 9) <? Deadband pid1) = true /\
  out = 7 /\
  (is_nan out = true \/ within_limits pid0 out).
Proof.
  cbv zeta. split; [reflexivity | split; [reflexivity|]].
  apply (proj1 (proj2 (Update_output_within_limits primary))
               (literal 1 0 0 5 10 2 false false)
               t0 (after t0 time.Microsecond) 10 3);
    [reflexivity | reflexivity | reflexivity | apply reach_start].
Defined.

(** The deadband return of a fresh controller whose limits are [5, 10]:
    the limits are in order, the inputs finite, and the value returned
    is 0. *)
Lemma Update_deadband_output_outside_limits :
  let pid := literal 1 0 0 5 10 2 false false in
  let out := fst (Primary.Update pid t0 (after t0 time.Microsecond) 10 9) in
  (MinOutput pid <=? MaxOutput pid) = true /\
  out = 0 /\
  (MinOutput pid <=? out) = false /\
  fst (Guarded.Update pid t0 (after t0 time.Microsecond) 10 9) = 0 /\
  fst (Primary.Update pid t0 t0 10 5) = 0.
Proof. cbv zeta. repeat split. Qed.

(** Finite gains and finite inputs can add up to NaN: the proportional term
    overflows to one infinity and the derivative term to the other. *)
Lemma Update_output_nan_from_finite_inputs :
  let pid := Reset (literal 0x1p1023 0 (-0x1p1023) (-100) 100 0 false false) t0 in
  fst (Primary.Update pid t1 t1 10 0) = nan /\
  fst (Guarded.Update pid t1 t1 10 0) = nan.
Proof. cbv zeta. split; reflexivity. Qed.

(** ** The proportional controller *)

(** With both other gains zero, a raw output that is a number is the
    proportional term, up to the sign of a zero. *)
Lemma raw_output_proportional r pid dt error :
  (Ki pid =? 0) = true -> (Kd pid =? 0) = true ->
  is_nan (raw_output r pid dt error) = false ->
  same_number (raw_output r pid dt error) (Kp pid * error).
Proof.
  intros HKi HKd. destruct r; unfold raw_output.
  - intros Hnan.
    destruct (add_not_nan _ _ Hnan) as [HPI HD].
    destruct (add_not_nan _ _ HPI) as [_ HI].
    destruct (div_not_nan _ _ HD) as [HN _].
    eapply same_number_trans.
    + apply add_zero_r, div_zero_l; [apply mul_zero_l|]; assumption.
    + apply add_zero_r, mul_zero_l; assumption.
  - rewrite HKi, HKd. cbn [negb]. intros _.
    eapply same_number_trans; apply add_zero_r; reflexivity.
Qed.

(** C8.  With integral and derivative gains zero, a call that reaches the
    terms and whose raw output lies within the limits returns the
    proportional gain times (setpoint - measured): equal to it under [==],
    and identical to it unless it is a zero, whose sign may differ.  With
    gains 1, 0, 0, limits [-100, 100], setpoint 10 and measured 5, on a
    controller that is fresh or has been called with these inputs before
    (nothing accumulated, previous error 0 or 5), whatever positive time
    has elapsed, the output is 5. *)
Theorem Update_proportional_only r :
  (forall pid now now' setpoint measured,
      (Ki pid =? 0) = true -> (Kd pid =? 0) = true ->
      (elapsed pid now now' <=? 0) = false ->
      (abs (setpoint - measured) <? Deadband pid) = false ->
      let raw := raw_output r pid (elapsed pid now now') (setpoint - measured) in
      let out := fst (Update r pid now now' setpoint measured) in
      (MinOutput pid <=? raw) = true -> (raw <=? MaxOutput pid) = true ->
      (out =? Kp pid * (setpoint - measured)) = true /\
      ((Kp pid * (setpoint - measured) =? 0) = false ->
       out = Kp pid * (setpoint - measured))) /\
  (forall saturated previous last out0 now now',
      let pid := mkPID 1 0 0 (-100) 100 0 saturated false
                       previous 0 last out0 in
      previous = 0 \/ previous = 5 ->
      (0 <? elapsed pid now now') = true ->
      fst (Update r pid now now' 10 5) = 5).
Proof.
  split.
  - intros pid now now' setpoint measured HKi HKd Hdt Hdb. cbv zeta.
    intros Hlo Hhi.
    rewrite (Update_full r pid now now' _ _ Hdt Hdb). cbv zeta. simpl_fields.
    set (raw := raw_output r pid _ _) in *.
    assert (Hnan : is_nan raw = false) by apply (leb_not_nan _ _ Hhi).
    assert (Hsame := raw_output_proportional r pid _ _ HKi HKd Hnan).
    fold raw in Hsame.
    unfold clamp.
    rewrite (leb_ltb_false _ _ Hhi), (leb_ltb_false _ _ Hlo).
    split.
    + now apply same_number_eqb.
    + now apply same_number_nonzero.
  - intros saturated previous last out0 now now' pid Hprev Hdt.
    rewrite Update_full; [| apply ltb_leb_false, Hdt | reflexivity].
    cbv zeta. set (dt := elapsed pid now now') in *. clearbody dt.
    destruct Hprev as [-> | ->];
      destruct r; unfold raw_output, clamp, saturation, pid;
      simpl_fields; cbn; rewrite ?(div_zero_pos dt Hdt); cbn; reflexivity.
Qed.

(** The proportional scenario on a fresh controller, and an error of 2.5
    one second after a [Reset]. *)
Lemma Update_proportional_only_witness :
  let pid := literal 1 0 0 (-100) 100 0 false false in
  (0 <? elapsed pid t0 (after t0 time.Microsecond)) = true /\
  fst (Update guarded pid t0 (after t0 time.Microsecond) 10 5) = 5 /\
  (fst (Update primary (Reset pid t0) t1 t1 10 7.5) =? 1 * (10 - 7.5)) = true.
Proof.
  cbv zeta. split; [reflexivity|]. split.
  - apply (proj2 (Update_proportional_only guarded) false 0 0%Z 0
                 t0 (after t0 time.Microsecond));
      [left|]; reflexivity.
  - set (pid := Reset _ t0).
    apply (proj1 (Update_proportional_only primary) pid t1 t1 10 7.5);
      reflexivity.
Defined.

(** ** The two revisions *)

(** A raw output of the first revision that is a number is the raw output
    of the second, up to the sign of a zero: the terms the second revision
    skips are zeros. *)
Lemma raw_output_revisions pid dt error :
  is_nan (raw_output primary pid dt error) = false ->
  same_number (raw_output primary pid dt error)
              (raw_output guarded pid dt error).
Proof.
  unfold raw_output. intros Hnan.
  destruct (add_not_nan _ _ Hnan) as [HPI HD].
  destruct (add_not_nan _ _ HPI) as [_ HI].
  destruct (div_not_nan _ _ HD) as [HN _].
  apply same_number_add; [apply same_number_add|].
  - apply same_number_refl.
  - destruct (Ki pid =? 0) eqn:HKi; cbn [negb];
      [right; split; [now apply mul_zero_l | reflexivity]
      | apply same_number_refl].
  - destruct (Kd pid =? 0) eqn:HKd; cbn [negb];
      [right; split; [apply div_zero_l; [now apply mul_zero_l | exact HD]
                     | reflexivity]
      | apply same_number_refl].
Qed.

Lemma saturation_same_number pid raw raw' error :
  same_number raw raw' -> saturation pid raw error = saturation pid raw' error.
Proof.
  intros H. unfold saturation.
  rewrite <- (same_number_ltb_r (MaxOutput pid) raw raw' H).
  rewrite <- (same_number_ltb_l raw raw' (MinOutput pid) H).
  reflexivity.
Qed.

(** C10, as amended.  From the same struct, with the same readings of the
    clock and the same inputs, whenever the first revision returns a
    number, the second revision returns the same number (equal under [==],
    identical but for the sign of a zero) and leaves the same previous
    error, last-update time, saturation flag and parameters, and the same
    number as last output; with both the integral and the derivative gain
    non-zero the outputs are identical.  (Nothing is said of the integral
    accumulator.) *)
Theorem Update_revisions_agree pid now now' setpoint measured :
  is_nan (fst (Primary.Update pid now now' setpoint measured)) = false ->
  let res1 := Primary.Update pid now now' setpoint measured in
  let res2 := Guarded.Update pid now now' setpoint measured in
  (fst res1 =? fst res2) = true /\
  same_number (fst res1) (fst res2) /\
  prevError (snd res1) = prevError (snd res2) /\
  lastTime (snd res1) = lastTime (snd res2) /\
  Saturated (snd res1) = Saturated (snd res2) /\
  same_number (lastOutput (snd res1)) (lastOutput (snd res2)) /\
  set_integral (set_lastOutput (snd res1) 0) 0 =
    set_integral (set_lastOutput (snd res2) 0) 0 /\
  ((Ki pid =? 0) = false -> (Kd pid =? 0) = false -> fst res1 = fst res2).
Proof.
  change (Primary.Update pid now now' setpoint measured)
    with (Update primary pid now now' setpoint measured).
  change (Guarded.Update pid now now' setpoint measured)
    with (Update guarded pid now now' setpoint measured).
  cbv zeta. intros Hnan.
  assert (Hsame : same_number
                    (fst (Update primary pid now now' setpoint measured))
                    (fst (Update guarded pid now now' setpoint measured)) /\
                  Saturated (snd (Update primary pid now now' setpoint measured))
                  = Saturated (snd (Update guarded pid now now' setpoint measured))).
  { revert Hnan.
    destruct (elapsed pid now now' <=? 0) eqn:Hdt;
      [ rewrite !(Update_no_time _ pid now now' setpoint measured Hdt);
        split; [apply same_number_refl | reflexivity] |].
    destruct (abs (setpoint - measured) <? Deadband pid) eqn:Hdb;
      [ rewrite !(Update_deadband _ pid now now' setpoint measured Hdt Hdb);
        split; [apply same_number_refl | reflexivity] |].
    rewrite !(Update_full _ pid now now' setpoint measured Hdt Hdb).
    cbv zeta. simpl_fields. intros Hnan.
    assert (H := raw_output_revisions pid _ _ (clamp_not_nan _ _ Hnan)).
    split; [now apply clamp_same_number | now apply saturation_same_number]. }
  destruct Hsame as [Hout Hsat].
  split; [now apply same_number_eqb|].
  split; [exact Hout|].
  rewrite <- !Update_lastOutput in Hout.
  revert Hout Hsat.
  destruct (elapsed pid now now' <=? 0) eqn:Hdt;
    [ rewrite !(Update_no_time _ pid now now' setpoint measured Hdt);
      repeat split; trivial |].
  destruct (abs (setpoint - measured) <? Deadband pid) eqn:Hdb;
    [ rewrite !(Update_deadband _ pid now now' setpoint measured Hdt Hdb);
      repeat split; trivial |].
  rewrite !(Update_full _ pid now now' setpoint measured Hdt Hdb).
  cbv zeta. simpl_fields. intros Hout Hsat.
  repeat split; trivial.
  - unfold set_integral, set_lastOutput. simpl_fields. now rewrite Hsat.
  - intros HKi HKd. unfold raw_output. now rewrite HKi, HKd.
Qed.

(** The two revisions on a struct with 2.5 accumulated: both return
    5.25. *)
Lemma Update_revisions_agree_witness :
  let pid := mkPID 1 0.1 0 (-100) 100 0 false true 5 2.5 t1 5 in
  is_nan (fst (Primary.Update pid t2 t2 10 5)) = false /\
  (fst (Primary.Update pid t2 t2 10 5) =? fst (Guarded.Update pid t2 t2 10 5))
  = true /\
  Saturated (snd (Primary.Update pid t2 t2 10 5)) =
  Saturated (snd (Guarded.Update pid t2 t2 10 5)).
Proof.
  cbv zeta. split; [reflexivity|].
  set (pid := mkPID 1 0.1 0 (-100) 100 0 false true 5 2.5 t1 5).
  destruct (Update_revisions_agree pid t2 t2 10 5 eq_refl)
    as (Heq & _ & _ & _ & Hsat & _).
  split; [exact Heq | exact Hsat].
Defined.

(** The guards of the second revision are not neutral.  A proportional
    controller (gains 1, 0, 0, limits [-100, 100]) one second after a
    [Reset], with the finite inputs [2^1023] and [-2^1023]: the error
    overflows to +infinity; the first revision multiplies it by the zero
    derivative gain and returns NaN with the flag clear, the second skips
    the term and returns the maximum with the flag set. *)
Lemma Update_revisions_differ_on_overflow :
  let pid := Reset (literal 1 0 0 (-100) 100 0 false false) t0 in
  let setpoint := 0x1p1023 in
  let measured := - 0x1p1023 in
  is_finite setpoint = true /\ is_finite measured = true /\
  Primary.Update pid t1 t1 setpoint measured =
    (nan, mkPID 1 0 0 (-100) 100 0 false false infinity 0 t1 nan) /\
  Guarded.Update pid t1 t1 setpoint measured =
    (100, mkPID 1 0 0 (-100) 100 0 true false infinity 0 t1 100) /\
  fst (Primary.Update pid t1 t1 setpoint measured) <>
  fst (Guarded.Update pid t1 t1 setpoint measured).
Proof.
  cbv zeta. repeat split. intros H.
  apply (f_equal is_nan) in H. discriminate H.
Qed.

(** They also differ by the defect of line 161: from the same struct with
    2.5 accumulated, the same call leaves 7.5 in one and 5 in the other. *)
Lemma Update_revisions_differ_on_integral :
  let pid := mkPID 1 0.1 0 (-100) 100 0 false true 5 2.5 t1 5 in
  fst (Primary.Update pid t2 t2 10 5) = fst (Guarded.Update pid t2 t2 10 5) /\
  integral (snd (Primary.Update pid t2 t2 10 5)) = 7.5 /\
  integral (snd (Guarded.Update pid t2 t2 10 5)) = 5.
Proof. cbv zeta. repeat split. Qed.

(** * More facts about binary64 floats *)

(** ** Signs *)

(** Rounding keeps the sign: what [binary_round_aux] makes of a mantissa
    that is not negative is a zero, a finite float or an infinity of the
    sign it is given, never NaN. *)
Lemma shr_1_nonneg mrs : (0 <= shr_m mrs)%Z -> (0 <= shr_m (shr_1 mrs))%Z.
Proof.
  destruct mrs as [m r s]. simpl.
  destruct m as [|[p|p|]|[p|p|]]; simpl; lia.
Qed.

Lemma iter_pos_shr_1_nonneg p mrs :
  (0 <= shr_m mrs)%Z -> (0 <= shr_m (iter_pos shr_1 p mrs))%Z.
Proof.
  revert mrs. induction p as [p IH|p IH|]; intros mrs H; simpl.
  - apply IH, IH, shr_1_nonneg, H.
  - apply IH, IH, H.
  - apply shr_1_nonneg, H.
Qed.

Lemma shr_fexp_nonneg pr em m e l :
  (0 <= m)%Z -> (0 <= shr_m (fst (shr_fexp pr em m e l)))%Z.
Proof.
  intros H. unfold shr_fexp, shr.
  assert (H0 : (0 <= shr_m (shr_record_of_loc m l))%Z)
    by (destruct l as [|[]]; exact H).
  destruct (_ - e)%Z; simpl; trivial.
  now apply iter_pos_shr_1_nonneg.
Qed.

Lemma round_nearest_even_nonneg m l :
  (0 <= m)%Z -> (0 <= round_nearest_even m l)%Z.
Proof.
  intros H. destruct l as [|[]]; simpl; try lia.
  destruct (Z.even m); lia.
Qed.

Lemma binary_round_aux_signed pr em s m e l :
  (0 <= m)%Z -> SFsigned s (binary_round_aux pr em s m e l) = true.
Proof.
  intros H. unfold binary_round_aux.
  assert (H1 := shr_fexp_nonneg pr em m e l H).
  destruct (shr_fexp pr em m e l) as [mrs' e']. simpl in H1.
  assert (H2 := shr_fexp_nonneg pr em _ e' loc_Exact
                  (round_nearest_even_nonneg _ (loc_of_shr_record mrs') H1)).
  destruct (shr_fexp pr em _ e' loc_Exact) as [mrs'' e'']. simpl in H2.
  destruct (shr_m mrs'') as [|p|p]; [| |lia].
  - now destruct s.
  - destruct (e'' <=? em - pr)%Z; now destruct s.
Qed.

Lemma binary_round_signed pr em s m e :
  SFsigned s (binary_round pr em s m e) = true.
Proof.
  unfold binary_round. destruct (shl_align m e _) as [mz ez].
  now apply binary_round_aux_signed.
Qed.

Lemma binary_normalize_nonneg pr em m e :
  (0 <= m)%Z -> SFnonneg (binary_normalize pr em m e false) = true.
Proof.
  intros H. destruct m as [|p|p]; simpl; [reflexivity | | lia].
  apply (binary_round_signed pr em false).
Qed.

Lemma binary_normalize_nonpos pr em m e :
  (m <= 0)%Z -> SFnonpos (binary_normalize pr em m e false) = true.
Proof.
  intros H. destruct m as [|p|p]; simpl; [reflexivity | lia |].
  apply (binary_round_signed pr em true).
Qed.

(** Sums and quotients of floats of one sign. *)
Lemma SFadd_nonneg x y :
  SFnonneg x = true -> SFnonneg y = true -> SFnonneg (SF64add x y) = true.
Proof.
  destruct x as [sx|sx| |sx mx ex], y as [sy|sy| |sy my ey]; simpl;
    try discriminate; try (destruct sx; try discriminate);
    try (destruct sy; try discriminate); intros _ _; try reflexivity.
  apply binary_normalize_nonneg. simpl. lia.
Qed.

Lemma SFadd_nonpos x y :
  SFnonpos x = true -> SFnonpos y = true -> SFnonpos (SF64add x y) = true.
Proof.
  destruct x as [sx|sx| |sx mx ex], y as [sy|sy| |sy my ey]; simpl;
    try discriminate; try (destruct sx; try discriminate);
    try (destruct sy; try discriminate); intros _ _; try reflexivity.
  apply binary_normalize_nonpos. simpl. lia.
Qed.

Lemma SFdiv_core_binary_nonneg pr em m1 e1 m2 e2 :
  (0 <= fst (fst (SFdiv_core_binary pr em (Zpos m1) e1 (Zpos m2) e2)))%Z.
Proof.
  unfold SFdiv_core_binary.
  set (s := (_ - _ - _)%Z).
  set (m' := match s with Zpos _ => Z.shiftl (Zpos m1) s | Z0 => Zpos m1 | Zneg _ => 0%Z end).
  assert (Hm' : (0 <= m')%Z).
  { unfold m'. destruct s; try lia. apply Z.shiftl_nonneg. lia. }
  assert (Hq := Z.div_pos m' (Zpos m2) Hm' eq_refl).
  unfold Z.div in Hq. destruct (Z.div_eucl m' (Zpos m2)) as [q r]. exact Hq.
Qed.

Lemma SFdiv_signed s x m e :
  SFsigned s x = true ->
  SFsigned s (SF64div x (S754_finite false m e)) = true.
Proof.
  destruct x as [sx|sx| |sx mx ex]; simpl.
  - now destruct s.
  - destruct s, sx; simpl; congruence.
  - destruct s; discriminate.
  - intros H. unfold SF64div, SFdiv.
    assert (Hq := SFdiv_core_binary_nonneg prec emax mx ex m e).
    destruct (SFdiv_core_binary prec emax (Zpos mx) ex (Zpos m) e) as [[mz ez] lz].
    simpl in Hq.
    replace (xorb sx false) with s by (destruct s, sx; simpl in *; congruence).
    now apply binary_round_aux_signed.
Qed.

Lemma of_uint63_nonneg n : SFnonneg (Prim2SF (of_uint63 n)) = true.
Proof.
  rewrite of_uint63_spec. apply binary_normalize_nonneg.
  apply Uint63.to_Z_bounded.
Qed.

Lemma SFopp_nonneg x : SFnonneg x = true -> SFnonpos (SFopp x) = true.
Proof. destruct x as [s|s| |s m e]; simpl; trivial; now destruct s. Qed.

Lemma SFnonneg_not_nan x : SFnonneg (Prim2SF x) = true -> is_nan x = false.
Proof. intros H. apply not_nan_SF. intros E. now rewrite E in H. Qed.

Lemma SFnonpos_not_nan x : SFnonpos (Prim2SF x) = true -> is_nan x = false.
Proof. intros H. apply not_nan_SF. intros E. now rewrite E in H. Qed.

Lemma SFnonpos_leb x : SFnonpos (Prim2SF x) = true -> (x <=? 0) = true.
Proof.
  rewrite leb_spec, Prim2SF_zero.
  destruct (Prim2SF x) as [[]|[]| |[] m e]; simpl; intros H;
    try discriminate; reflexivity.
Qed.

Lemma SFnonneg_ltb x : SFnonneg (Prim2SF x) = true -> (x <? 0) = false.
Proof.
  rewrite ltb_spec, Prim2SF_zero.
  destruct (Prim2SF x) as [[]|[]| |[] m e]; simpl; intros H;
    try discriminate; reflexivity.
Qed.

(** ** Positive floats *)

(** Rounding does not lose a positive mantissa whose exponent is not
    below [emin]. *)
Lemma digits2_pos_lower p : (2 ^ (Zpos (digits2_pos p) - 1) <= Zpos p)%Z.
Proof.
  induction p as [p IH|p IH|]; cbn [digits2_pos].
  - rewrite Pos2Z.inj_succ.
    replace (Z.succ (Zpos (digits2_pos p)) - 1)%Z
      with (Z.succ (Zpos (digits2_pos p) - 1))%Z by lia.
    rewrite Z.pow_succ_r by lia. lia.
  - rewrite Pos2Z.inj_succ.
    replace (Z.succ (Zpos (digits2_pos p)) - 1)%Z
      with (Z.succ (Zpos (digits2_pos p) - 1))%Z by lia.
    rewrite Z.pow_succ_r by lia. lia.
  - simpl. lia.
Qed.

Lemma shr_1_half mrs :
  (0 <= shr_m mrs)%Z -> shr_m (shr_1 mrs) = (shr_m mrs / 2)%Z.
Proof.
  destruct mrs as [m r s]. cbn [shr_m]. intros H.
  destruct m as [|[p|p|]|p]; cbn [shr_1 shr_m]; try lia; try reflexivity.
  - apply Z.div_unique with (r := 1%Z); lia.
  - apply Z.div_unique with (r := 0%Z); lia.
Qed.

Lemma iter_pos_shr_1_div p mrs :
  (0 <= shr_m mrs)%Z ->
  shr_m (iter_pos shr_1 p mrs) = (shr_m mrs / 2 ^ Zpos p)%Z.
Proof.
  revert mrs. induction p as [p IH|p IH|]; intros mrs H; cbn [iter_pos].
  - rewrite IH by (apply iter_pos_shr_1_nonneg, shr_1_nonneg, H).
    rewrite IH by (apply shr_1_nonneg, H).
    rewrite shr_1_half by exact H.
    rewrite !Z.div_div by lia.
    f_equal. replace (Zpos p~1) with (1 + Zpos p + Zpos p)%Z by lia.
    rewrite !Z.pow_add_r by lia. change (2 ^ 1)%Z with 2%Z. lia.
  - rewrite IH by (apply iter_pos_shr_1_nonneg, H).
    rewrite IH by exact H.
    rewrite !Z.div_div by lia.
    f_equal. rewrite <- Z.pow_add_r by lia. f_equal. lia.
  - rewrite shr_1_half by exact H. reflexivity.
Qed.

Lemma shr_record_of_loc_m m l : shr_m (shr_record_of_loc m l) = m.
Proof. now destruct l as [|[]]. Qed.

(** A positive mantissa at an exponent not below [emin] does not shift
    away. *)
Lemma shr_fexp_positive m e l :
  (emin <= e)%Z ->
  let res := shr_fexp prec emax (Zpos m) e l in
  (0 < shr_m (fst res))%Z /\ (e <= snd res)%Z.
Proof.
  intros He. cbv zeta. unfold shr_fexp, shr.
  set (n := (fexp prec emax (Zdigits2 (Zpos m) + e) - e)%Z).
  assert (Hn : (n <= Z.max (Zpos (digits2_pos m) - prec) 0)%Z).
  { unfold n, fexp, Zdigits2. lia. }
  destruct n as [|p|p] eqn:En; cbn [fst snd];
    rewrite ?shr_record_of_loc_m; try (split; lia).
  rewrite iter_pos_shr_1_div by (rewrite shr_record_of_loc_m; lia).
  rewrite shr_record_of_loc_m. split; [|lia].
  apply Z.div_str_pos. split; [apply Z.pow_pos_nonneg; lia|].
  apply Z.le_trans with (2 ^ (Zpos (digits2_pos m) - 1))%Z;
    [|apply digits2_pos_lower].
  apply Z.pow_le_mono_r; [lia|].
  unfold prec in Hn. lia.
Qed.

Lemma binary_round_aux_positive s m e l :
  (emin <= e)%Z ->
  binary_round_aux prec emax s (Zpos m) e l = S754_infinity s \/
  exists m' e', binary_round_aux prec emax s (Zpos m) e l = S754_finite s m' e'
                /\ (e <= e')%Z.
Proof.
  intros He. unfold binary_round_aux.
  destruct (shr_fexp_positive m e l He) as [H1 H1e].
  destruct (shr_fexp prec emax (Zpos m) e l) as [mrs' e1]. cbn [fst snd] in *.
  assert (Hr : (0 < round_nearest_even (shr_m mrs') (loc_of_shr_record mrs'))%Z).
  { destruct (loc_of_shr_record mrs') as [|[]]; simpl; try lia.
    destruct (Z.even (shr_m mrs')); lia. }
  destruct (round_nearest_even (shr_m mrs') (loc_of_shr_record mrs'))
    as [|p|p]; try lia.
  destruct (shr_fexp_positive p e1 loc_Exact) as [H2 H2e]; [lia|].
  destruct (shr_fexp prec emax (Zpos p) e1 loc_Exact) as [mrs'' e2].
  cbn [fst snd] in *.
  destruct (shr_m mrs'') as [|q|q]; try lia.
  destruct (e2 <=? emax - prec)%Z; [right | now left].
  exists q, e2. split; [reflexivity | lia].
Qed.

(** A finite float has at most [prec] digits and an exponent not below
    [emin]. *)
Lemma Prim2SF_finite_bounds x s m e :
  Prim2SF x = S754_finite s m e ->
  (emin <= e)%Z /\ (Zpos (digits2_pos m) <= prec)%Z.
Proof.
  intros E. assert (H := Prim2SF_valid x). rewrite E in H.
  unfold valid_binary, bounded, canonical_mantissa in H.
  apply andb_prop in H. destruct H as [H _].
  apply Z.eqb_eq in H. unfold fexp, SpecFloat.emin, prec, emax in *. lia.
Qed.

Lemma binary_round_positive s m e :
  (emin <= e)%Z ->
  binary_round prec emax s m e = S754_infinity s \/
  exists m' e', binary_round prec emax s m e = S754_finite s m' e'
                /\ (Z.min e (fexp prec emax (Zpos (digits2_pos m) + e)) <= e')%Z.
Proof.
  intros He. unfold binary_round, shl_align.
  set (e0 := fexp prec emax (Zpos (digits2_pos m) + e)).
  assert (He0 : (emin <= e0)%Z) by (unfold e0, fexp; lia).
  destruct (e0 - e)%Z as [|d|d] eqn:Ed.
  - destruct (binary_round_aux_positive s m e loc_Exact He) as [H|(m' & e' & H & Hle)];
      [now left | right]. exists m', e'. split; [exact H | lia].
  - destruct (binary_round_aux_positive s m e loc_Exact He) as [H|(m' & e' & H & Hle)];
      [now left | right]. exists m', e'. split; [exact H | lia].
  - destruct (binary_round_aux_positive s (Pos.iter xO m d) e0 loc_Exact He0)
      as [H|(m' & e' & H & Hle)]; [now left | right].
    exists m', e'. split; [exact H | lia].
Qed.

(** [float64(n)] of a positive integer: positive, and at least 1 in the
    sense that its exponent is not below [-52]. *)
Lemma of_uint63_positive n :
  (0 < Uint63.to_Z n)%Z ->
  Prim2SF (of_uint63 n) = S754_infinity false \/
  exists m e, Prim2SF (of_uint63 n) = S754_finite false m e /\ (-52 <= e)%Z.
Proof.
  intros H. rewrite of_uint63_spec.
  destruct (Uint63.to_Z n) as [|p|p]; try lia. cbn [binary_normalize].
  destruct (binary_round_positive false p 0) as [E|(m & e & E & He)];
    [unfold SpecFloat.emin, prec, emax; lia | now left | right].
  exists m, e. split; [exact E|].
  assert (0 < Zpos (digits2_pos p))%Z by lia.
  unfold fexp, SpecFloat.emin, prec, emax in He. lia.
Qed.

Lemma Prim2SF_1e9 : Prim2SF 1e9 = S754_finite false 8388608000000000 (-23).
Proof. reflexivity. Qed.

Lemma SFdiv_1e9_positive x m e :
  Prim2SF x = S754_finite false m e -> (-52 <= e)%Z ->
  SFpositive (Prim2SF (x / 1e9)) = true.
Proof.
  intros E He. destruct (Prim2SF_finite_bounds x _ _ _ E) as [_ Hd].
  rewrite div_spec, E, Prim2SF_1e9. unfold SF64div, SFdiv, SFdiv_core_binary.
  set (d1 := Zdigits2 (Zpos m)).
  set (d2 := Zdigits2 (Zpos 8388608000000000)).
  assert (Hd1 : d1 = Zpos (digits2_pos m)) by reflexivity.
  assert (Hd2 : d2 = 53%Z) by reflexivity.
  assert (0 < Zpos (digits2_pos m))%Z by lia.
  set (e' := Z.min (fexp prec emax (d1 + e - (d2 + -23))) (e - -23)).
  assert (He' : e' = (d1 + e - 83)%Z)
    by (unfold e', fexp, SpecFloat.emin, prec, emax in *; lia).
  set (s := (e - -23 - e')%Z).
  assert (Hs : s = (106 - d1)%Z) by (unfold s; lia).
  set (m' := match s with
             | Zpos _ => Z.shiftl (Zpos m) s
             | Z0 => Zpos m
             | Zneg _ => 0%Z
             end).
  assert (Hm' : (2 ^ 105 <= m')%Z).
  { unfold m'. destruct s as [|p|p] eqn:Es; try (unfold prec in *; lia).
    rewrite Z.shiftl_mul_pow2 by lia. rewrite Hs.
    assert (Hlow := digits2_pos_lower m). rewrite <- Hd1 in Hlow.
    replace 105%Z with ((d1 - 1) + (106 - d1))%Z by lia.
    rewrite Z.pow_add_r by (unfold prec in *; lia).
    apply Z.mul_le_mono_nonneg_r; [apply Z.pow_nonneg; lia | exact Hlow]. }
  assert (Hq : (0 < m' / Zpos 8388608000000000)%Z).
  { apply Z.div_str_pos. split; [lia|].
    apply Z.le_trans with (2 ^ 105)%Z; [vm_compute; discriminate | exact Hm']. }
  unfold Z.div in Hq.
  destruct (Z.div_eucl m' (Zpos 8388608000000000)) as [q r].
  destruct q as [|q|q]; try lia.
  cbn [xorb].
  destruct (binary_round_aux_positive false q e'
              (new_location (Zpos 8388608000000000) r))
    as [H0|(m1 & e1 & H0 & _)];
    [unfold SpecFloat.emin, prec, emax in *; lia | |]; now rewrite H0.
Qed.

Lemma SFpositive_nonneg x : SFpositive x = true -> SFnonneg x = true.
Proof. now destruct x. Qed.

Lemma SFpositive_ltb x : SFpositive (Prim2SF x) = true -> (0 <? x) = true.
Proof.
  rewrite ltb_spec, Prim2SF_zero.
  destruct (Prim2SF x) as [[]|[]| |[] m e]; simpl; intros H;
    try discriminate; reflexivity.
Qed.

(** The sum of a positive float and one that is not negative is positive:
    valid operands are too large for the sum to round to zero. *)
Lemma add_positive x y :
  SFpositive (Prim2SF x) = true -> SFnonneg (Prim2SF y) = true ->
  SFpositive (Prim2SF (x + y)) = true /\ SFpositive (Prim2SF (y + x)) = true.
Proof.
  intros Hx Hy. rewrite !add_spec.
  destruct (Prim2SF x) as [sx|sx| |sx mx ex] eqn:Ex; try discriminate;
    destruct sx; try discriminate;
    destruct (Prim2SF y) as [sy|sy| |sy my ey] eqn:Ey; try discriminate;
    try (destruct sy; try discriminate); try (split; reflexivity).
  destruct (Prim2SF_finite_bounds x _ _ _ Ex) as [Hex _].
  destruct (Prim2SF_finite_bounds y _ _ _ Ey) as [Hey _].
  unfold SF64add, SFadd. cbn [cond_Zopp].
  split.
  - set (a := fst (shl_align mx ex (Z.min ex ey))).
    set (b := fst (shl_align my ey (Z.min ex ey))).
    change (Zpos a + Zpos b)%Z with (Zpos (a + b)). cbn [binary_normalize].
    destruct (binary_round_positive false (a + b) (Z.min ex ey))
      as [H|(m & e & H & _)]; [lia | |]; now rewrite H.
  - set (a := fst (shl_align mx ex (Z.min ey ex))).
    set (b := fst (shl_align my ey (Z.min ey ex))).
    change (Zpos b + Zpos a)%Z with (Zpos (b + a)). cbn [binary_normalize].
    destruct (binary_round_positive false (b + a) (Z.min ey ex))
      as [H|(m & e & H & _)]; [lia | |]; now rewrite H.
Qed.

(** ** NaN, the order and zeros again *)

Lemma is_nan_eq x : is_nan x = true -> x = nan.
Proof. intros H. apply Prim2SF_inj. now apply is_nan_SF in H. Qed.

Lemma add_nan_l x y : is_nan x = true -> x + y = nan.
Proof.
  intros H. apply Prim2SF_inj. rewrite add_spec.
  apply is_nan_SF in H. now rewrite H.
Qed.

Lemma add_nan_r x y : is_nan y = true -> x + y = nan.
Proof.
  intros H. apply Prim2SF_inj. rewrite add_spec.
  apply is_nan_SF in H. rewrite H. now destruct (Prim2SF x).
Qed.

Lemma mul_nan_r x y : is_nan y = true -> x * y = nan.
Proof.
  intros H. apply Prim2SF_inj. rewrite mul_spec.
  apply is_nan_SF in H. rewrite H. now destruct (Prim2SF x).
Qed.

Lemma ltb_nan_l x y : is_nan x = true -> (x <? y) = false.
Proof.
  intros H. destruct (x <? y) eqn:E; trivial.
  destruct (ltb_not_nan _ _ E). congruence.
Qed.

Lemma ltb_nan_r x y : is_nan y = true -> (x <? y) = false.
Proof.
  intros H. destruct (x <? y) eqn:E; trivial.
  destruct (ltb_not_nan _ _ E). congruence.
Qed.

Lemma abs_nan x : is_nan x = true -> is_nan (abs x) = true.
Proof.
  rewrite !is_nan_SF, abs_spec. now intros ->.
Qed.

Lemma abs_ltb_positive x d : (abs x <? d) = true -> (0 <? d) = true.
Proof.
  rewrite !ltb_spec, abs_spec, Prim2SF_zero. unfold SFltb.
  destruct (Prim2SF x) as [sx|sx| |sx mx ex],
           (Prim2SF d) as [sd|sd| |sd md ed]; simpl;
    try discriminate; try (destruct sd; try discriminate; reflexivity).
Qed.

(** One more transitivity of the order. *)
Lemma SFcompare_Le_Lt_trans (x y z : spec_float) :
  SFcompare x y = Some Lt \/ SFcompare x y = Some Eq ->
  SFcompare y z = Some Lt ->
  SFcompare x z = Some Lt.
Proof.
  destruct x as [sx|sx| |sx mx ex], y as [sy|sy| |sy my ey],
           z as [sz|sz| |sz mz ez]; simpl;
    try (destruct sx); try (destruct sy); try (destruct sz);
    intros [H|H] H'; try discriminate; try reflexivity; revert H H';
    change (Pos.compare_cont Eq) with Pos.compare;
    destruct (Z.compare_spec ex ey), (Z.compare_spec ey ez),
             (Z.compare_spec ex ez); subst; try lia;
    try discriminate; try reflexivity;
    destruct (Pos.compare_spec mx my), (Pos.compare_spec my mz),
             (Pos.compare_spec mx mz); subst; simpl; try lia;
    try discriminate; try reflexivity.
Qed.

Lemma leb_ltb_trans x y z :
  (x <=? y) = true -> (y <? z) = true -> (x <? z) = true.
Proof.
  rewrite !ltb_spec, leb_spec. unfold SFltb, SFleb. intros Hxy Hyz.
  rewrite (SFcompare_Le_Lt_trans (Prim2SF x) (Prim2SF y) (Prim2SF z)); trivial.
  - destruct (SFcompare (Prim2SF x) (Prim2SF y)) as [[]|]; auto; discriminate.
  - destruct (SFcompare (Prim2SF y) (Prim2SF z)) as [[]|]; congruence.
Qed.

Lemma sub_diag_zero x : is_nan (x - x) = false -> (x - x =? 0) = true.
Proof.
  rewrite eqb_zero_SF, not_nan_SF, sub_spec.
  destruct (Prim2SF x) as [s|s| |s m e]; simpl.
  - now destruct s.
  - now destruct s.
  - congruence.
  - intros _. unfold SF64sub, SFsub. now rewrite Z.sub_diag.
Qed.

Lemma sub_zero_r x : same_number (x - 0) x.
Proof.
  unfold same_number. rewrite !eqb_zero_SF, sub_spec, Prim2SF_zero.
  destruct (Prim2SF x) as [s|s| |s m e] eqn:Ex.
  - right. split; [now destruct s | reflexivity].
  - left. apply Prim2SF_inj. rewrite sub_spec, Ex, Prim2SF_zero. reflexivity.
  - left. apply Prim2SF_inj. rewrite sub_spec, Ex, Prim2SF_zero. reflexivity.
  - left. apply Prim2SF_inj. rewrite sub_spec, Ex, Prim2SF_zero. reflexivity.
Qed.

Lemma same_number_mul k a a' :
  same_number a a' -> same_number (k * a) (k * a').
Proof.
  intros [->|[H H']]; [apply same_number_refl|].
  unfold same_number. rewrite !eqb_zero_SF in *.
  assert (E : Prim2SF (k * a) = S754_nan /\ Prim2SF (k * a') = S754_nan \/
              SFis_zero (Prim2SF (k * a)) = true /\
              SFis_zero (Prim2SF (k * a')) = true).
  { rewrite !mul_spec.
    destruct (Prim2SF a); try discriminate.
    destruct (Prim2SF a'); try discriminate.
    destruct (Prim2SF k); simpl; auto. }
  destruct E as [[E1 E2]|E]; [left | now right].
  apply Prim2SF_inj. congruence.
Qed.

Lemma same_number_div a a' d :
  same_number a a' -> same_number (a / d) (a' / d).
Proof.
  intros [->|[H H']]; [apply same_number_refl|].
  unfold same_number. rewrite !eqb_zero_SF in *.
  assert (E : Prim2SF (a / d) = S754_nan /\ Prim2SF (a' / d) = S754_nan \/
              SFis_zero (Prim2SF (a / d)) = true /\
              SFis_zero (Prim2SF (a' / d)) = true).
  { rewrite !div_spec.
    destruct (Prim2SF a); try discriminate.
    destruct (Prim2SF a'); try discriminate.
    destruct (Prim2SF d); simpl; auto. }
  destruct E as [[E1 E2]|E]; [left | now right].
  apply Prim2SF_inj. congruence.
Qed.

Lemma mul_zero_r x z :
  (z =? 0) = true -> is_nan (x * z) = false -> (x * z =? 0) = true.
Proof.
  rewrite !eqb_zero_SF, not_nan_SF, mul_spec.
  destruct (Prim2SF z) as [s|s| |s m e]; try discriminate. intros _.
  destruct (Prim2SF x) as [s'|s'| |s' m' e']; simpl; congruence.
Qed.

Lemma same_number_not_nan x y :
  same_number x y -> is_nan x = false -> is_nan y = false.
Proof.
  intros [->|[_ H]] Hx; trivial.
  apply not_nan_SF. apply eqb_zero_SF in H.
  destruct (Prim2SF y); discriminate.
Qed.

(** * The clock

    [d.Seconds()] is a number of the sign of [d]: not positive when [d] is
    not, positive when [d] is. *)

(** The conversions of [Seconds] keep the sign of the duration. *)
Lemma float64_of_int64_nonneg n :
  (0 <= n)%Z -> SFnonneg (Prim2SF (time.float64_of_int64 n)) = true.
Proof.
  intros H. unfold time.float64_of_int64.
  destruct (Z.ltb_spec n 0); [lia|]. apply of_uint63_nonneg.
Qed.

Lemma float64_of_int64_nonpos n :
  (n <= 0)%Z -> SFnonpos (Prim2SF (time.float64_of_int64 n)) = true.
Proof.
  intros H. unfold time.float64_of_int64.
  destruct (Z.ltb_spec n 0).
  - rewrite opp_spec. apply SFopp_nonneg, of_uint63_nonneg.
  - replace n with 0%Z by lia. reflexivity.
Qed.

Lemma Seconds_nonneg d :
  (0 <= d)%Z -> SFnonneg (Prim2SF (time.Seconds d)) = true.
Proof.
  intros H. unfold time.Seconds. rewrite add_spec, div_spec.
  apply SFadd_nonneg.
  - apply float64_of_int64_nonneg. apply Z.quot_pos; [exact H | reflexivity].
  - apply (SFdiv_signed false). apply float64_of_int64_nonneg.
    apply Z.rem_nonneg; [discriminate | exact H].
Qed.

Lemma Seconds_nonpos d :
  (d <= 0)%Z -> SFnonpos (Prim2SF (time.Seconds d)) = true.
Proof.
  intros H. unfold time.Seconds. rewrite add_spec, div_spec.
  assert (Hq : (Z.quot d time.Second <= 0)%Z).
  { rewrite <- (Z.opp_involutive d), Z.quot_opp_l by discriminate.
    assert (0 <= Z.quot (- d) time.Second)%Z
      by (apply Z.quot_pos; [lia | reflexivity]).
    lia. }
  assert (Hr : (Z.rem d time.Second <= 0)%Z).
  { rewrite <- (Z.opp_involutive d), Z.rem_opp_l by discriminate.
    assert (0 <= Z.rem (- d) time.Second)%Z
      by (apply Z.rem_nonneg; [discriminate | lia]).
    lia. }
  apply SFadd_nonpos.
  - now apply float64_of_int64_nonpos.
  - apply (SFdiv_signed true). now apply float64_of_int64_nonpos.
Qed.

(** [d.Seconds()] is a number, and not a positive one when [d] is not. *)
Lemma Seconds_not_nan d : is_nan (time.Seconds d) = false.
Proof.
  destruct (Z.le_ge_cases 0 d).
  - now apply SFnonneg_not_nan, Seconds_nonneg.
  - now apply SFnonpos_not_nan, Seconds_nonpos.
Qed.

Lemma float64_of_int64_positive n :
  (0 < n < 2 ^ 63)%Z ->
  SFpositive (Prim2SF (time.float64_of_int64 n)) = true /\
  SFpositive (Prim2SF (time.float64_of_int64 n / 1e9)) = true.
Proof.
  intros H. unfold time.float64_of_int64.
  destruct (Z.ltb_spec n 0); [lia|].
  assert (Hn : (0 < Uint63.to_Z (Uint63.of_Z n))%Z).
  { rewrite <- Uint63.is_int; [lia|]. change (Uint63.to_Z Uint63.digits) with 63%Z. lia. }
  destruct (of_uint63_positive _ Hn) as [E|(m & e & E & He)].
  - split; [now rewrite E|]. rewrite div_spec, E, Prim2SF_1e9. reflexivity.
  - split; [now rewrite E|]. now apply (SFdiv_1e9_positive _ m e).
Qed.

(** [d.Seconds()] of a positive duration is positive. *)
Lemma Seconds_positive d :
  (0 < d <= time.maxDuration)%Z -> (0 <? time.Seconds d) = true.
Proof.
  intros H. apply SFpositive_ltb. unfold time.Seconds.
  assert (Hq : (0 <= Z.quot d time.Second < 2 ^ 63)%Z).
  { split; [apply Z.quot_pos; [lia | reflexivity]|].
    apply Z.le_lt_trans with d; [|unfold time.maxDuration in H; lia].
    apply Z.quot_le_upper_bound; [reflexivity|]. unfold time.Second. lia. }
  assert (Hr : (0 <= Z.rem d time.Second < time.Second)%Z)
    by (apply Z.rem_bound_pos; [lia | reflexivity]).
  assert (Hd := Z.quot_rem' d time.Second).
  destruct (Z.eq_dec (Z.rem d time.Second) 0) as [Hr0|Hr0].
  - rewrite Hr0.
    assert (Hq0 : (0 < Z.quot d time.Second < 2 ^ 63)%Z) by lia.
    destruct (float64_of_int64_positive _ Hq0) as [Hp _].
    apply (add_positive _ (time.float64_of_int64 0 / 1e9) Hp). reflexivity.
  - assert (Hr1 : (0 < Z.rem d time.Second < 2 ^ 63)%Z)
      by (unfold time.Second in *; lia).
    destruct (float64_of_int64_positive _ Hr1) as [_ Hp].
    apply (add_positive _ (time.float64_of_int64 (Z.quot d time.Second)) Hp).
    apply float64_of_int64_nonneg. lia.
Qed.

Lemma Sub_nonpos t u : (t <= u)%Z -> (time.Sub t u <= 0)%Z.
Proof.
  intros H. unfold time.Sub.
  destruct (Z.ltb_spec (t - u) time.minDuration); [discriminate|].
  destruct (Z.ltb_spec time.maxDuration (t - u)); [|lia].
  unfold time.maxDuration in *. lia.
Qed.

Lemma Sub_positive t u :
  (u < t)%Z -> (0 < time.Sub t u <= time.maxDuration)%Z.
Proof.
  intros H. unfold time.Sub.
  destruct (Z.ltb_spec (t - u) time.minDuration);
    [unfold time.minDuration in *; lia|].
  destruct (Z.ltb_spec time.maxDuration (t - u));
    unfold time.maxDuration in *; lia.
Qed.

Lemma elapsed_not_nan pid now now' : is_nan (elapsed pid now now') = false.
Proof. apply Seconds_not_nan. Qed.

Lemma elapsed_positive pid now now' :
  (lastTime (stamp pid now) < now')%Z -> (0 <? elapsed pid now now') = true.
Proof. intros H. apply Seconds_positive, Sub_positive, H. Qed.

Lemma elapsed_not_positive pid now now' :
  (now' <= lastTime (stamp pid now))%Z -> (elapsed pid now now' <=? 0) = true.
Proof. intros H. apply SFnonpos_leb, Seconds_nonpos, Sub_nonpos, H. Qed.

(** What passes the guard of line 42 is positive. *)
Lemma guard_positive pid now now' :
  (elapsed pid now now' <=? 0) = false -> (0 <? elapsed pid now now') = true.
Proof.
  intros H. destruct (0 <? elapsed pid now now') eqn:E; trivial.
  rewrite (ltb_false_leb 0 (elapsed pid now now')) in H;
    [discriminate | reflexivity | apply elapsed_not_nan | exact E].
Qed.

(** * Further properties of [Update] and [Reset] *)

(** ** The guard on the elapsed time *)

(** X1.  The elapsed time [dt] of a call is never NaN, and its sign is that
    of the clock: [dt <= 0] holds exactly when the second reading of the
    clock is not after the last-update time (as lines 37-39 leave it), and
    [dt > 0] exactly when it is after it.  So a call that passes the guard
    of line 42 divides by a positive time. *)
Theorem Update_elapsed_time_guard pid now now' :
  is_nan (elapsed pid now now') = false /\
  (elapsed pid now now' <=? 0) = (now' <=? lastTime (stamp pid now))%Z /\
  (0 <? elapsed pid now now') = (lastTime (stamp pid now) <? now')%Z.
Proof.
  split; [apply elapsed_not_nan|].
  destruct (Z.leb_spec now' (lastTime (stamp pid now))) as [H|H].
  - rewrite (elapsed_not_positive pid now now' H).
    split; [reflexivity|].
    destruct (Z.ltb_spec (lastTime (stamp pid now)) now'); [lia|].
    apply leb_ltb_false. now apply elapsed_not_positive.
  - rewrite (elapsed_positive pid now now' H).
    split; [now apply ltb_leb_false, elapsed_positive|].
    destruct (Z.ltb_spec (lastTime (stamp pid now)) now'); [reflexivity | lia].
Qed.

(** X2.  [Update] by the clock: when the second reading is not after the
    last-update time the call returns the last output and assigns nothing
    but an unset last-update time; when it is after it and the error is
    not within the deadband, the call is a full update: it returns the
    limited raw output and records the error and the first reading. *)
Theorem Update_acts_when_clock_advanced r pid now now' setpoint measured :
  let last := lastTime (stamp pid now) in
  let res := Update r pid now now' setpoint measured in
  ((now' <= last)%Z -> res = (lastOutput pid, stamp pid now)) /\
  ((last < now')%Z ->
   (abs (setpoint - measured) <? Deadband pid) = false ->
   lastTime (snd res) = now /\
   prevError (snd res) = setpoint - measured /\
   fst res = clamp pid (raw_output r pid (elapsed pid now now')
                                   (setpoint - measured))).
Proof.
  cbv zeta. split.
  - intros H. apply Update_no_time. now apply elapsed_not_positive.
  - intros H Hdb.
    rewrite (Update_full r pid now now' _ _
               (ltb_leb_false _ _ (elapsed_positive pid now now' H)) Hdb).
    repeat split.
Qed.

(** A struct last updated at [t1]: a call that reads [t1] again returns
    early; a call at [t2] is a full update. *)
Lemma Update_acts_when_clock_advanced_witness :
  let pid := mkPID 1 0 0 (-100) 100 0 false false 0 0 t1 0 in
  Update primary pid t0 t1 10 5 = (0, pid) /\
  fst (Update primary pid t2 t2 10 5) = 5.
Proof.
  cbv zeta. set (pid := mkPID _ _ _ _ _ _ _ _ _ _ _ _).
  destruct (Update_acts_when_clock_advanced primary pid t0 t1 10 5) as [H _].
  destruct (Update_acts_when_clock_advanced primary pid t2 t2 10 5) as [_ H'].
  split.
  - apply H. vm_compute. discriminate.
  - destruct H' as (_ & _ & ->); reflexivity.
Defined.

(** ** The accumulator and the flag along the calls *)

(** X3.  The only calls that change the integral accumulator are full
    updates of a controller with anti-windup enabled that end with the
    saturation flag clear; they leave in it the local [integral] of line 58
    (line 161).  Early returns, saturated updates and controllers without
    anti-windup never change it. *)
Theorem Update_changes_integral_only_unsaturated
        r pid now now' setpoint measured :
  let res := Update r pid now now' setpoint measured in
  integral (snd res) <> integral pid ->
  AntiWindup pid = true /\
  Saturated (snd res) = false /\
  (elapsed pid now now' <=? 0) = false /\
  (abs (setpoint - measured) <? Deadband pid) = false /\
  integral (snd res) =
    candidate_integral r pid (elapsed pid now now') (setpoint - measured).
Proof.
  cbv zeta.
  Update_paths r pid now now' setpoint measured; simpl_fields;
    rewrite ?stamp_eq; simpl_fields; try congruence.
  destruct (AntiWindup pid); cbn [andb]; [|congruence].
  destruct (saturation pid _ _); cbn [negb]; [congruence|].
  repeat split.
Qed.

(** A call that changes the accumulator (from 0 to 2.5). *)
Lemma Update_changes_integral_only_unsaturated_witness :
  let pid := Reset (literal 1 0.1 0 (-100) 100 0 false true) t0 in
  AntiWindup pid = true /\
  Saturated (snd (Update guarded pid t1 t1 10 5)) = false.
Proof.
  cbv zeta. set (pid := Reset _ t0).
  destruct (Update_changes_integral_only_unsaturated guarded pid t1 t1 10 5)
    as (H1 & H2 & _).
  - vm_compute. intros H. apply (f_equal (fun x => x =? 0)) in H.
    discriminate H.
  - split; assumption.
Defined.

Lemma reachable_AntiWindup r pid0 pid :
  reachable r pid0 pid -> AntiWindup pid = AntiWindup pid0.
Proof.
  induction 1 as [|pid now now' setpoint measured _ IH|pid now _ IH]; trivial.
  destruct (Update_parameters r pid now now' setpoint measured)
    as (_ & _ & _ & _ & _ & _ & H). now rewrite H.
Qed.

Lemma reachable_integral_without_antiwindup r pid0 pid :
  reachable r pid0 pid ->
  AntiWindup pid0 = false ->
  integral pid = integral pid0 \/ integral pid = 0.
Proof.
  intros Hreach H0.
  induction Hreach as [|pid now now' setpoint measured Hr IH|pid now _ IH].
  - now left.
  - rewrite Update_without_antiwindup_keeps_integral; trivial.
    now rewrite (reachable_AntiWindup r pid0 pid Hr).
  - now right.
Qed.

(** X4.  A controller made by a literal with anti-windup disabled has an
    integral accumulator of 0 in every state that calls of [Update] and
    [Reset] lead to. *)
Theorem Update_without_antiwindup_never_accumulates
        r kp ki kd lo hi deadband saturated pid :
  reachable r (literal kp ki kd lo hi deadband saturated false) pid ->
  integral pid = 0.
Proof.
  intros Hreach.
  destruct (reachable_integral_without_antiwindup r _ pid Hreach eq_refl)
    as [H|H]; exact H.
Qed.

(** The third case of [TestPIDUpdate] after two calls. *)
Lemma Update_without_antiwindup_never_accumulates_witness :
  let pid0 := literal 1 0.1 0.05 (-100) 100 0 false false in
  let pid1 := snd (Update primary pid0 t0 (after t0 time.Microsecond) 10 5) in
  integral (snd (Update primary pid1 t1 t1 10 5)) = 0.
Proof.
  cbv zeta.
  apply (Update_without_antiwindup_never_accumulates
           primary 1 0.1 0.05 (-100) 100 0 false).
  apply reach_Update, reach_Update, reach_start.
Defined.

Lemma saturation_at_limit pid raw error :
  saturation pid raw error = true ->
  clamp pid raw = MaxOutput pid \/ clamp pid raw = MinOutput pid.
Proof.
  unfold saturation, clamp.
  destruct (MaxOutput pid <? raw); [now left|].
  destruct (raw <? MinOutput pid); [now right | discriminate].
Qed.

(** X5.  Starting from a struct whose saturation flag is clear, in every
    state that calls of [Update] and [Reset] lead to, a set flag means
    that the last output is exactly the maximum or the minimum. *)
Theorem Saturated_means_output_at_limit r pid0 pid :
  reachable r pid0 pid ->
  Saturated pid0 = false ->
  Saturated pid = true ->
  lastOutput pid = MaxOutput pid \/ lastOutput pid = MinOutput pid.
Proof.
  intros Hreach H0.
  induction Hreach as [|pid now now' setpoint measured _ IH|pid now _ IH].
  - congruence.
  - Update_paths r pid now now' setpoint measured; simpl_fields;
      rewrite ?stamp_eq; simpl_fields; trivial.
    apply saturation_at_limit.
  - exact IH.
Qed.

(** The saturation scenario after one call. *)
Lemma Saturated_means_output_at_limit_witness :
  let pid0 := literal 10 0 0 (-20) 20 0 false false in
  let pid := snd (Update primary pid0 t0 (after t0 time.Microsecond) 10 5) in
  lastOutput pid = MaxOutput pid \/ lastOutput pid = MinOutput pid.
Proof.
  cbv zeta.
  apply (Saturated_means_output_at_limit primary
           (literal 10 0 0 (-20) 20 0 false false));
    [apply reach_Update, reach_start | reflexivity | reflexivity].
Defined.

(** ** Limits out of order, and no deadband *)

(** X6.  With the limits out of order (maximum < minimum) a full update
    never returns its raw output: a raw output above the maximum gives the
    maximum (flag [error > 0]) and every other number gives the minimum
    (flag [error < 0]). *)
Theorem Update_limits_out_of_order r pid now now' setpoint measured :
  (MaxOutput pid <? MinOutput pid) = true ->
  (elapsed pid now now' <=? 0) = false ->
  (abs (setpoint - measured) <? Deadband pid) = false ->
  let error := setpoint - measured in
  let raw := raw_output r pid (elapsed pid now now') error in
  let res := Update r pid now now' setpoint measured in
  is_nan raw = false ->
  ((MaxOutput pid <? raw) = true ->
   fst res = MaxOutput pid /\ Saturated (snd res) = (0 <? error)) /\
  ((MaxOutput pid <? raw) = false ->
   fst res = MinOutput pid /\ Saturated (snd res) = (error <? 0)).
Proof.
  intros Hlim Hdt Hdb. cbv zeta. intros Hnan.
  rewrite (Update_full r pid now now' _ _ Hdt Hdb). cbv zeta. simpl_fields.
  unfold clamp, saturation.
  set (raw := raw_output r pid _ _) in *.
  split; intros Hmax; rewrite Hmax; [split; reflexivity|].
  assert (Hmin : (raw <? MinOutput pid) = true).
  { apply (leb_ltb_trans _ (MaxOutput pid)); [|exact Hlim].
    apply ltb_false_leb; trivial. apply (ltb_not_nan _ _ Hlim). }
  rewrite Hmin. split; reflexivity.
Qed.

(** Limits 20 and -20 given the wrong way round: an error of 5 gives -20,
    an error of -30 gives 20. *)
Lemma Update_limits_out_of_order_witness :
  let pid := Reset (literal 1 0 0 20 (-20) 0 false false) t0 in
  fst (Update primary pid t1 t1 10 5) = -20 /\
  fst (Update primary pid t1 t1 10 40) = 20.
Proof.
  cbv zeta. set (pid := Reset _ t0). split.
  - apply (Update_limits_out_of_order primary pid t1 t1 10 5); reflexivity.
  - apply (Update_limits_out_of_order primary pid t1 t1 10 40); reflexivity.
Defined.

(** X7.  A deadband that is zero (the default), negative or NaN never
    holds a call back: every call that passes the guard on the elapsed
    time is a full update, whatever the error. *)
Theorem Update_without_deadband r pid now now' setpoint measured :
  (0 <? Deadband pid) = false ->
  (elapsed pid now now' <=? 0) = false ->
  let res := Update r pid now now' setpoint measured in
  prevError (snd res) = setpoint - measured /\
  lastTime (snd res) = now /\
  fst res = clamp pid (raw_output r pid (elapsed pid now now')
                                  (setpoint - measured)).
Proof.
  intros Hd Hdt. cbv zeta.
  rewrite (Update_full r pid now now' _ _ Hdt).
  - repeat split.
  - destruct (abs (setpoint - measured) <? Deadband pid) eqn:E; trivial.
    apply abs_ltb_positive in E. congruence.
Qed.

(** A deadband of -3 and an error of 0. *)
Lemma Update_without_deadband_witness :
  let pid := Reset (literal 1 0 0 (-100) 100 (-3) false false) t0 in
  prevError (snd (Update primary pid t1 t1 10 10)) = 0 /\
  lastTime (snd (Update primary pid t1 t1 10 10)) = t1.
Proof.
  cbv zeta. set (pid := Reset _ t0).
  destruct (Update_without_deadband primary pid t1 t1 10 10 eq_refl eq_refl)
    as (H1 & H2 & _).
  split; [exact H1 | exact H2].
Defined.

(** ** NaN *)

Lemma clamp_nan pid raw : is_nan raw = true -> clamp pid raw = raw.
Proof.
  intros H. unfold clamp. now rewrite ltb_nan_r, ltb_nan_l.
Qed.

Lemma saturation_nan pid raw error :
  is_nan raw = true -> saturation pid raw error = false.
Proof.
  intros H. unfold saturation. now rewrite ltb_nan_r, ltb_nan_l.
Qed.

Lemma raw_output_nan_error r pid dt error :
  is_nan error = true -> raw_output r pid dt error = nan.
Proof.
  intros H. destruct r; unfold raw_output;
    rewrite (mul_nan_r (Kp pid) error H);
    now rewrite !(add_nan_l nan _ eq_refl).
Qed.

(** X8.  The deadband does not filter NaN.  When the error
    [setpoint - measured] is NaN (a NaN input, or two infinities of the
    same sign), a call that passes the guard on the elapsed time returns
    NaN, keeps NaN as last output and previous error, clears the saturation
    flag, and with anti-windup enabled stores NaN in the accumulator. *)
Theorem Update_nan_error r pid now now' setpoint measured :
  is_nan (setpoint - measured) = true ->
  (elapsed pid now now' <=? 0) = false ->
  let res := Update r pid now now' setpoint measured in
  fst res = nan /\
  lastOutput (snd res) = nan /\
  prevError (snd res) = nan /\
  Saturated (snd res) = false /\
  (AntiWindup pid = true -> integral (snd res) = nan) /\
  (AntiWindup pid = false -> integral (snd res) = integral pid).
Proof.
  intros He Hdt. cbv zeta.
  rewrite (Update_full r pid now now' _ _ Hdt)
    by (apply ltb_nan_l, abs_nan, He).
  cbv zeta. simpl_fields.
  rewrite (raw_output_nan_error r pid _ _ He).
  rewrite (clamp_nan pid nan eq_refl), (saturation_nan pid nan _ eq_refl).
  repeat split.
  - now apply is_nan_eq.
  - intros ->. cbn [andb negb].
    apply is_nan_eq in He. rewrite He.
    destruct r; unfold candidate_integral;
      rewrite ?(add_nan_l nan (prevError pid) eq_refl);
      rewrite (mul_nan_r _ nan eq_refl); trivial.
    now apply add_nan_r.
  - now intros ->.
Qed.

(** A NaN setpoint, in spite of a deadband of 2. *)
Lemma Update_nan_error_witness :
  let pid := Reset (literal 1 0.1 0 (-100) 100 2 false true) t0 in
  fst (Update primary pid t1 t1 nan 5) = nan /\
  prevError (snd (Update primary pid t1 t1 nan 5)) = nan /\
  integral (snd (Update primary pid t1 t1 nan 5)) = nan.
Proof.
  cbv zeta. set (pid := Reset _ t0).
  destruct (Update_nan_error primary pid t1 t1 nan 5 eq_refl eq_refl)
    as (H1 & _ & H3 & _ & H5 & _).
  split; [exact H1 | split; [exact H3 | apply H5; reflexivity]].
Defined.

(** X9.  In the first revision a NaN in the integral accumulator stays
    there whatever is called with, and every full update returns NaN with
    the saturation flag clear: only [Reset] recovers the controller. *)
Theorem Primary_Update_keeps_nan_integral pid now now' setpoint measured :
  is_nan (integral pid) = true ->
  let res := Primary.Update pid now now' setpoint measured in
  integral (snd res) = nan /\
  ((elapsed pid now now' <=? 0) = false ->
   (abs (setpoint - measured) <? Deadband pid) = false ->
   fst res = nan /\ Saturated (snd res) = false).
Proof.
  intros Hi.
  change (Primary.Update pid now now' setpoint measured)
    with (Update primary pid now now' setpoint measured).
  cbv zeta.
  assert (Hraw : forall dt e, raw_output primary pid dt e = nan).
  { intros dt e. unfold raw_output.
    rewrite (mul_nan_r (Ki pid) _ Hi).
    rewrite (add_nan_r (Kp pid * e) nan eq_refl).
    now rewrite (add_nan_l nan _ eq_refl). }
  split.
  - Update_paths primary pid now now' setpoint measured; simpl_fields;
      rewrite ?stamp_eq; simpl_fields; try (now apply is_nan_eq).
    rewrite Hraw, (saturation_nan pid nan _ eq_refl).
    destruct (AntiWindup pid); cbn [andb negb]; [|now apply is_nan_eq].
    unfold candidate_integral. now apply add_nan_l.
  - intros Hdt Hdb. rewrite (Update_full primary pid now now' _ _ Hdt Hdb).
    cbv zeta. simpl_fields. rewrite Hraw.
    now rewrite (clamp_nan pid nan eq_refl), (saturation_nan pid nan _ eq_refl).
Qed.

(** A struct with NaN accumulated, called with ordinary inputs. *)
Lemma Primary_Update_keeps_nan_integral_witness :
  let pid := mkPID 1 0.1 0 (-100) 100 0 false true 5 nan t1 5 in
  integral (snd (Primary.Update pid t2 t2 10 5)) = nan /\
  fst (Primary.Update pid t2 t2 10 5) = nan.
Proof.
  cbv zeta. set (pid := mkPID _ _ _ _ _ _ _ _ _ _ _ _).
  destruct (Primary_Update_keeps_nan_integral pid t2 t2 10 5 eq_refl)
    as (H1 & H2).
  split; [exact H1 | apply H2; reflexivity].
Defined.

(** ** A repeated error *)

Lemma raw_output_steady r pid dt error :
  prevError pid = error ->
  is_nan (raw_output r pid dt error) = false ->
  same_number (raw_output r pid dt error) (pi_output r pid error).
Proof.
  intros Hprev Hnan.
  assert (HD : forall D, is_nan (Kd pid * (error - prevError pid) / dt) = false ->
                         D = Kd pid * (error - prevError pid) / dt ->
                         (D =? 0) = true).
  { intros D HDn ->. rewrite Hprev in *.
    destruct (div_not_nan _ _ HDn) as [HN _].
    destruct (mul_not_nan _ _ HN) as [_ HS].
    apply div_zero_l; [|exact HDn].
    apply mul_zero_r; [|exact HN]. now apply sub_diag_zero. }
  destruct r; unfold raw_output, pi_output in *.
  - destruct (add_not_nan _ _ Hnan) as [_ HDn].
    apply add_zero_r. now apply (HD _ HDn).
  - destruct (Kd pid =? 0) eqn:HKd; cbn [negb] in *.
    + apply add_zero_r. reflexivity.
    + destruct (add_not_nan _ _ Hnan) as [_ HDn].
      apply add_zero_r. now apply (HD _ HDn).
Qed.

(** X10.  When the error repeats (it equals the previous error) and the
    raw output is a number, the derivative term is a zero: the output is
    the limited sum of the proportional and the integral term, and the
    flag is that of this sum, whatever the derivative gain and the elapsed
    time. *)
Theorem Update_repeated_error r pid now now' setpoint measured :
  prevError pid = setpoint - measured ->
  (elapsed pid now now' <=? 0) = false ->
  (abs (setpoint - measured) <? Deadband pid) = false ->
  let error := setpoint - measured in
  let res := Update r pid now now' setpoint measured in
  is_nan (raw_output r pid (elapsed pid now now') error) = false ->
  same_number (fst res) (clamp pid (pi_output r pid error)) /\
  Saturated (snd res) = saturation pid (pi_output r pid error) error.
Proof.
  intros Hprev Hdt Hdb. cbv zeta. intros Hnan.
  rewrite (Update_full r pid now now' _ _ Hdt Hdb). cbv zeta. simpl_fields.
  assert (H := raw_output_steady r pid _ _ Hprev Hnan).
  split; [now apply clamp_same_number | now apply saturation_same_number].
Qed.

(** Gains 1, 0.1, 0.05 with 2.5 accumulated and the error 5 repeated. *)
Lemma Update_repeated_error_witness :
  let pid := mkPID 1 0.1 0.05 (-100) 100 0 false true 5 2.5 t1 5 in
  same_number (fst (Update primary pid t2 t2 10 5)) 5.25.
Proof.
  cbv zeta. set (pid := mkPID _ _ _ _ _ _ _ _ _ _ _ _).
  apply (Update_repeated_error primary pid t2 t2 10 5); reflexivity.
Defined.

Lemma reachable_parameters r pid0 pid :
  reachable r pid0 pid ->
  Kp pid = Kp pid0 /\ Ki pid = Ki pid0 /\ Kd pid = Kd pid0 /\
  MinOutput pid = MinOutput pid0 /\ MaxOutput pid = MaxOutput pid0 /\
  Deadband pid = Deadband pid0 /\ AntiWindup pid = AntiWindup pid0.
Proof.
  induction 1 as [|pid now now' setpoint measured _ IH|pid now _ IH].
  - repeat split.
  - destruct IH as (H1 & H2 & H3 & H4 & H5 & H6 & H7).
    destruct (Update_parameters r pid now now' setpoint measured)
      as (G1 & G2 & G3 & G4 & G5 & G6 & G7).
    repeat split; congruence.
  - exact IH.
Qed.

Lemma pi_output_without_integral r pid error :
  integral pid = 0 ->
  is_nan (pi_output r pid error) = false ->
  same_number (pi_output r pid error) (Kp pid * error).
Proof.
  intros Hi. destruct r; unfold pi_output; rewrite Hi.
  - intros Hnan. destruct (add_not_nan _ _ Hnan) as [_ HI].
    apply add_zero_r. now apply mul_zero_r.
  - intros Hnan. destruct (Ki pid =? 0); cbn [negb] in *.
    + apply add_zero_r. reflexivity.
    + destruct (add_not_nan _ _ Hnan) as [_ HI].
      apply add_zero_r. now apply mul_zero_r.
Qed.

(** X11.  Without anti-windup the controller is a proportional one once
    the error repeats: in every state reached from a literal with
    anti-windup disabled, a full update whose error equals the previous
    error and whose raw output is a number returns the proportional term
    [kp * error] limited to [lo, hi], whatever the integral gain, the
    derivative gain and the elapsed time. *)
Theorem Update_steady_state_is_proportional
        r kp ki kd lo hi deadband saturated pid now now' setpoint measured :
  reachable r (literal kp ki kd lo hi deadband saturated false) pid ->
  prevError pid = setpoint - measured ->
  (elapsed pid now now' <=? 0) = false ->
  (abs (setpoint - measured) <? deadband) = false ->
  let error := setpoint - measured in
  let res := Update r pid now now' setpoint measured in
  is_nan (raw_output r pid (elapsed pid now now') error) = false ->
  same_number (fst res)
              (if hi <? kp * error then hi
               else if kp * error <? lo then lo else kp * error).
Proof.
  intros Hreach Hprev Hdt Hdb. cbv zeta. intros Hnan.
  destruct (reachable_parameters r _ pid Hreach)
    as (HKp & _ & _ & Hlo & Hhi & Hd & _).
  unfold literal in *. simpl_fields.
  assert (Hi := reachable_integral_without_antiwindup r _ pid Hreach eq_refl).
  assert (Hi0 : integral pid = 0) by (destruct Hi as [Hi|Hi]; exact Hi).
  rewrite <- Hd in Hdb.
  assert (Hraw := raw_output_steady r pid _ _ Hprev Hnan).
  assert (HP := pi_output_without_integral r pid (setpoint - measured) Hi0
                  (same_number_not_nan _ _ Hraw Hnan)).
  rewrite (Update_full r pid now now' _ _ Hdt Hdb). cbv zeta. simpl_fields.
  assert (H := clamp_same_number pid _ _ (same_number_trans _ _ _ Hraw HP)).
  unfold clamp in H at 2. now rewrite HKp, Hlo, Hhi in H.
Qed.

(** The third case of [TestPIDUpdate]: the second full update returns 5. *)
Lemma Update_steady_state_is_proportional_witness :
  let pid0 := literal 1 0.1 0.05 (-100) 100 0 false false in
  let pid1 := snd (Update primary pid0 t0 (after t0 time.Microsecond) 10 5) in
  same_number (fst (Update primary pid1 t1 t1 10 5)) 5.
Proof.
  cbv zeta.
  apply (Update_steady_state_is_proportional
           primary 1 0.1 0.05 (-100) 100 0 false);
    try reflexivity.
  apply reach_Update, reach_start.
Defined.

(** ** After a [Reset] *)

Lemma raw_output_after_Reset pid t dt error :
  (is_nan (raw_output primary (Reset pid t) dt error) = false ->
   same_number (raw_output primary (Reset pid t) dt error)
               (Kp pid * error + Kd pid * error / dt)) /\
  (is_nan (raw_output guarded (Reset pid t) dt error) = false ->
   same_number (raw_output guarded (Reset pid t) dt error)
               (Kp pid * error
                + (if Kd pid =? 0 then 0 else Kd pid * error / dt))).
Proof.
  unfold raw_output, Reset. simpl_fields. split; intros Hnan.
  - destruct (add_not_nan _ _ Hnan) as [HPI _].
    destruct (add_not_nan _ _ HPI) as [_ HI].
    apply same_number_add.
    + apply add_zero_r. now apply mul_zero_r.
    + apply same_number_div, same_number_mul, sub_zero_r.
  - destruct (add_not_nan _ _ Hnan) as [HPI _].
    apply same_number_add.
    + apply add_zero_r. destruct (Ki pid =? 0); cbn [negb] in *;
        [reflexivity|].
      destruct (add_not_nan _ _ HPI) as [_ HI]. now apply mul_zero_r.
    + destruct (Kd pid =? 0); cbn [negb]; [apply same_number_refl|].
      apply same_number_div, same_number_mul, sub_zero_r.
Qed.

(** X12.  The first full update after a [Reset] sees no history: when its
    raw output is a number, the output is the limited sum of the
    proportional term and of [Kd * error / dt], with [dt] counted from the
    [Reset], whatever the previous error and the accumulator were before
    the [Reset].  (The second revision writes the derivative term as 0
    when the gain is 0.) *)
Theorem Update_after_Reset pid t now now' setpoint measured :
  let pid' := Reset pid t in
  let dt := elapsed pid' now now' in
  let error := setpoint - measured in
  (dt <=? 0) = false ->
  (abs error <? Deadband pid) = false ->
  (is_nan (raw_output primary pid' dt error) = false ->
   same_number (fst (Primary.Update pid' now now' setpoint measured))
               (clamp pid (Kp pid * error + Kd pid * error / dt))) /\
  (is_nan (raw_output guarded pid' dt error) = false ->
   same_number (fst (Guarded.Update pid' now now' setpoint measured))
               (clamp pid (Kp pid * error
                           + (if Kd pid =? 0 then 0
                              else Kd pid * error / dt)))).
Proof.
  cbv zeta. intros Hdt Hdb.
  change (Primary.Update (Reset pid t) now now' setpoint measured)
    with (Update primary (Reset pid t) now now' setpoint measured).
  change (Guarded.Update (Reset pid t) now now' setpoint measured)
    with (Update guarded (Reset pid t) now now' setpoint measured).
  rewrite !(Update_full _ (Reset pid t) now now' _ _ Hdt Hdb).
  cbv zeta. simpl_fields.
  destruct (raw_output_after_Reset pid t (elapsed (Reset pid t) now now')
              (setpoint - measured)) as [HP HG].
  split; intros Hnan.
  - apply (clamp_same_number pid), HP, Hnan.
  - apply (clamp_same_number pid), HG, Hnan.
Qed.

(** Gains 1, 0.1, 0.5: one second after the [Reset] the output is
    5 + 0.5 * 5 / 1. *)
Lemma Update_after_Reset_witness :
  let pid := mkPID 1 0.1 0.5 (-100) 100 0 false true 7 2.5 t0 5 in
  same_number (fst (Primary.Update (Reset pid t1) t2 t2 10 5)) 7.5.
Proof.
  cbv zeta. set (pid := mkPID _ _ _ _ _ _ _ _ _ _ _ _).
  destruct (Update_after_Reset pid t1 t2 t2 10 5 eq_refl eq_refl) as [H _].
  apply H. reflexivity.
Defined.

(** X13.  [Reset] keeps the last output, and the early returns hand it
    back: a call after a [Reset] (at a set instant) that sees no time
    elapsed since the [Reset], or an error within the deadband, returns the
    output of before the [Reset] and leaves the struct as the [Reset] left
    it. *)
Theorem Update_after_Reset_returns_earlier_output
        r pid t now now' setpoint measured :
  time.IsZero t = false ->
  (now' <= t)%Z \/ (abs (setpoint - measured) <? Deadband pid) = true ->
  Update r (Reset pid t) now now' setpoint measured =
  (lastOutput pid, Reset pid t).
Proof.
  intros Ht H.
  assert (Hs : stamp (Reset pid t) now = Reset pid t).
  { unfold stamp, Reset. simpl_fields. now rewrite Ht. }
  destruct (elapsed (Reset pid t) now now' <=? 0) eqn:Hdt.
  - rewrite (Update_no_time r _ now now' _ _ Hdt). now rewrite Hs.
  - destruct H as [H|H].
    + rewrite elapsed_not_positive in Hdt; [discriminate|]. now rewrite Hs.
    + rewrite (Update_deadband r _ now now' _ _ Hdt H). now rewrite Hs.
Qed.

(** A saturated controller, [Reset], and a call at the same instant. *)
Lemma Update_after_Reset_returns_earlier_output_witness :
  let pid := mkPID 10 0 0 (-20) 20 0 true false 5 0 t0 20 in
  Update primary (Reset pid t1) t1 t1 0 0 = (20, Reset pid t1).
Proof.
  cbv zeta. set (pid := mkPID _ _ _ _ _ _ _ _ _ _ _ _).
  apply (Update_after_Reset_returns_earlier_output primary pid t1 t1 t1 0 0).
  - reflexivity.
  - left. vm_compute. discriminate.
Defined.

(** * The tests *)

(** Invariants of the loop, on a clock that ticks and on any clock. *)
Lemma UpdateLoop_invariant r (I : nat -> time.Time -> float -> PID -> Prop)
      setpoint measured :
  (forall n t output pid now now',
      I n t output pid -> (t < now)%Z -> (now <= now')%Z ->
      I (S n) now' (fst (Update r pid now now' setpoint measured))
                   (snd (Update r pid now now' setpoint measured))) ->
  forall clock n t output pid,
    I n t output pid -> ticking t clock ->
    exists t',
      I (n + length clock)%nat t'
        (fst (UpdateLoop r clock setpoint measured output pid))
        (snd (UpdateLoop r clock setpoint measured output pid)).
Proof.
  intros Hstep clock.
  induction clock as [|[now now'] clock IH]; intros n t output pid HI Ht.
  - exists t. now rewrite Nat.add_0_r.
  - destruct Ht as (H1 & H2 & Ht). cbn [UpdateLoop length].
    assert (H := Hstep n t output pid now now' HI H1 H2).
    destruct (Update r pid now now' setpoint measured) as [output' pid'].
    rewrite Nat.add_succ_r. apply (IH (S n) now'); assumption.
Qed.

Lemma UpdateLoop_invariant_any r (I : float -> PID -> Prop) setpoint measured :
  (forall output pid now now',
      I output pid ->
      I (fst (Update r pid now now' setpoint measured))
        (snd (Update r pid now now' setpoint measured))) ->
  forall clock output pid,
    I output pid ->
    I (fst (UpdateLoop r clock setpoint measured output pid))
      (snd (UpdateLoop r clock setpoint measured output pid)).
Proof.
  intros Hstep clock.
  induction clock as [|[now now'] clock IH]; intros output pid HI; trivial.
  cbn [UpdateLoop].
  assert (H := Hstep output pid now now' HI).
  destruct (Update r pid now now' setpoint measured) as [output' pid'].
  now apply IH.
Qed.

(** A call on a struct whose last-update time is set and not after the
    previous reading passes the guard. *)
Lemma warm_elapsed pid t now now' :
  (0 < lastTime pid <= t)%Z -> (t < now)%Z -> (now <= now')%Z ->
  (0 <? elapsed pid now now') = true.
Proof.
  intros Hl H1 H2. apply elapsed_positive. unfold stamp.
  destruct (Z.eqb_spec (lastTime pid) 0) as [E|E]; [lia|].
  unfold time.IsZero. destruct (Z.eqb_spec (lastTime pid) 0); [lia|]. lia.
Qed.

(** The first call on a struct fresh from its literal: it returns early
    with nothing but the last-update time assigned, or it is a full update
    over a positive time. *)
Lemma fresh_call r pid t now now' setpoint measured :
  lastTime pid = 0%Z -> (0 <= t)%Z -> (t < now)%Z -> (now <= now')%Z ->
  Update r pid now now' setpoint measured = (lastOutput pid, set_lastTime pid now)
  \/ (0 <? elapsed pid now now') = true.
Proof.
  intros Hl Ht H1 H2.
  destruct (Z.eq_dec now now') as [E|E].
  - left. rewrite Update_no_time.
    + unfold stamp. now rewrite Hl.
    + apply elapsed_not_positive. unfold stamp. rewrite Hl. cbn. lia.
  - right. apply elapsed_positive. unfold stamp. rewrite Hl. cbn. lia.
Qed.

(** A full update over a positive time, on a struct given by its fields:
    unfold it and compute what does not depend on the time. *)
Ltac full_update Hdt :=
  rewrite Update_full; [| apply ltb_leb_false, Hdt | reflexivity];
  cbv zeta;
  match type of Hdt with
  | (0 <? ?d) = true =>
      let dt := fresh "dt" in
      set (dt := d) in *; clearbody dt;
      unfold raw_output, candidate_integral, clamp, saturation;
      simpl_fields; cbn;
      rewrite ?(div_zero_pos dt Hdt); cbn
  end.

Ltac warm_call t Hdt :=
  match goal with
  | |- context [Update _ ?p ?now ?now' _ _] =>
      assert (Hdt : (0 <? elapsed p now now') = true)
        by (apply (warm_elapsed p t); simpl_fields; assumption)
  end.

(** Any call: an early return that at most assigns the last-update time,
    or a full update over a positive time. *)
Ltac any_call r pid now now' setpoint measured Hdt :=
  let H := fresh "H" in
  destruct (elapsed pid now now' <=? 0) eqn:H;
    [ rewrite (Update_no_time r pid now now' setpoint measured H), stamp_eq;
      simpl_fields
    | assert (Hdt := guard_positive pid now now' H); clear H ].

(** The steps of the loops of the three tests. *)
Lemma saturation_state_step r n t output pid now now' :
  saturation_state n t output pid -> (t < now)%Z -> (now <= now')%Z ->
  saturation_state (S n) now'
    (fst (Update r pid now now' 10 0)) (snd (Update r pid now now' 10 0)).
Proof.
  intros HI H1 H2. destruct n as [|[|n]]; cbn [saturation_state] in *.
  - destruct HI as (-> & -> & Ht).
    destruct (fresh_call r (literal 10 0 0 (-20) 20 0 false false)
                t now now' 10 0 eq_refl Ht H1 H2) as [E|Hdt].
    + rewrite E. exists false, 0, now. cbn. repeat split; auto; lia.
    + destruct r; full_update Hdt;
        exists true, 10, now; repeat split; auto; lia.
  - destruct HI as (saturated & previous & last & -> & Hp & Hl).
    warm_call t Hdt.
    destruct Hp as [-> | ->]; destruct r; full_update Hdt;
      exists now; repeat split; lia.
  - destruct HI as (last & -> & -> & Hl).
    warm_call t Hdt.
    destruct r; full_update Hdt; exists now; repeat split; lia.
Qed.

Lemma antiwindup_state_step r output pid now now' :
  antiwindup_state output pid ->
  antiwindup_state (fst (Update r pid now now' 100 0))
                   (snd (Update r pid now now' 100 0)).
Proof.
  intros (saturated & previous & last & -> & Hp).
  set (pid := mkPID _ _ _ _ _ _ _ _ _ _ _ _).
  any_call r pid now now' 100 0 Hdt.
  - unfold set_lastTime, pid. simpl_fields. now eexists _, _, _.
  - subst pid.
    destruct Hp as [-> | ->]; destruct r; full_update Hdt;
      eexists _, _, _; split; try reflexivity; auto.
Qed.

Ltac update_state_step r n t now now' pid0 setpoint measured :=
  let HI := fresh "HI" in
  let H1 := fresh "H1" in
  let H2 := fresh "H2" in
  let Hdt := fresh "Hdt" in
  intros HI H1 H2; destruct n as [|[|[|n]]]; cbn [update_state] in *;
  [ destruct HI as (-> & -> & Ht);
    destruct (fresh_call r pid0 t now now' setpoint measured
                eq_refl Ht H1 H2) as [E|Hdt];
    [ rewrite E; exists false, 0, now; cbn; repeat split; auto; lia
    | destruct r; full_update Hdt;
      eexists _, _, now; (split; [reflexivity|]); split; auto; lia ]
  | destruct HI as (saturated & previous & last & -> & Hp & Hl);
    warm_call t Hdt;
    destruct Hp as [-> | ->]; destruct r; full_update Hdt;
    eexists _, now; (split; [reflexivity|]); lia
  | destruct HI as (saturated & last & -> & Hl);
    warm_call t Hdt;
    destruct r; full_update Hdt;
    eexists _, now; (split; [reflexivity|]); (split; [reflexivity | lia])
  | destruct HI as (saturated & last & -> & -> & Hl);
    warm_call t Hdt;
    destruct r; full_update Hdt;
    eexists _, now; (split; [reflexivity|]); (split; [reflexivity | lia]) ].

Lemma update_state_step_1 r n t output pid now now' :
  update_state 1 0 0 (-100) 100 0 5 5 n t output pid ->
  (t < now)%Z -> (now <= now')%Z ->
  update_state 1 0 0 (-100) 100 0 5 5 (S n) now'
    (fst (Update r pid now now' 10 5)) (snd (Update r pid now now' 10 5)).
Proof.
  update_state_step r n t now now'
    (literal 1 0 0 (-100) 100 0 false false) 10 5.
Qed.

Lemma update_state_step_2 r n t output pid now now' :
  update_state 10 0 0 (-20) 20 0 5 20 n t output pid ->
  (t < now)%Z -> (now <= now')%Z ->
  update_state 10 0 0 (-20) 20 0 5 20 (S n) now'
    (fst (Update r pid now now' 10 5)) (snd (Update r pid now now' 10 5)).
Proof.
  update_state_step r n t now now'
    (literal 10 0 0 (-20) 20 0 false false) 10 5.
Qed.

Lemma update_state_step_3 r n t output pid now now' :
  update_state 1 0.1 0.05 (-100) 100 0 5 5 n t output pid ->
  (t < now)%Z -> (now <= now')%Z ->
  update_state 1 0.1 0.05 (-100) 100 0 5 5 (S n) now'
    (fst (Update r pid now now' 10 5)) (snd (Update r pid now now' 10 5)).
Proof.
  update_state_step r n t now now'
    (literal 1 0.1 0.05 (-100) 100 0 false false) 10 5.
Qed.

Lemma deadband_state_step r output pid now now' :
  deadband_state output pid ->
  deadband_state (fst (Update r pid now now' 10 9))
                 (snd (Update r pid now now' 10 9)).
Proof.
  intros (last & -> & ->).
  set (pid := mkPID _ _ _ _ _ _ _ _ _ _ _ _).
  destruct (elapsed pid now now' <=? 0) eqn:Hdt.
  - rewrite (Update_no_time r pid now now' 10 9 Hdt), stamp_eq.
    unfold set_lastTime, pid. simpl_fields. now eexists.
  - rewrite (Update_deadband r pid now now' 10 9 Hdt eq_refl), stamp_eq.
    unfold set_lastTime, pid. simpl_fields. now eexists.
Qed.

(** X14.  [TestPIDSaturation] passes on every clock that ticks: after two
    or more iterations of its loop (it runs 100) the output equals the
    maximum and the saturation flag is set, so neither of its two error
    conditions holds.  Both revisions. *)
Theorem TestPIDSaturation_passes r t clock :
  (0 <= t)%Z -> ticking t clock -> (2 <= length clock)%nat ->
  let pid := literal 10 0 0 (-20) 20 0 false false in
  let res := UpdateLoop r clock 10 0 0 pid in
  negb (fst res =? MaxOutput (snd res)) = false /\
  negb (Saturated (snd res)) = false.
Proof.
  intros Ht Hclock Hlen. cbv zeta.
  destruct (UpdateLoop_invariant r saturation_state 10 0
              (saturation_state_step r) clock 0 t 0
              (literal 10 0 0 (-20) 20 0 false false))
    as [t' H]; [repeat split; trivial | exact Hclock |].
  cbn [Nat.add] in H.
  destruct (length clock) as [|[|n]]; try lia.
  cbn [saturation_state] in H. destruct H as (last & -> & -> & _).
  split; reflexivity.
Qed.

(** Two iterations, a second apart. *)
Lemma TestPIDSaturation_passes_witness :
  let clock := [(t1, t1); (t2, t2)] in
  let res := UpdateLoop primary clock 10 0 0
                        (literal 10 0 0 (-20) 20 0 false false) in
  negb (fst res =? MaxOutput (snd res)) = false /\
  negb (Saturated (snd res)) = false.
Proof.
  cbv zeta.
  apply (TestPIDSaturation_passes primary t0 [(t1, t1); (t2, t2)]).
  - discriminate.
  - vm_compute. repeat split; discriminate.
  - cbn. lia.
Defined.

(** X15.  [TestPIDAntiWindup] passes on every clock and for every number
    of iterations: the controller saturates from its first full update,
    so the accumulator is still 0 after the loop and the error condition
    [math.Abs(pid.integral) > pid.MaxOutput/pid.Ki] is false.  Both
    revisions. *)
Theorem TestPIDAntiWindup_passes r clock :
  let pid := literal 1 0.1 0 (-10) 10 0 false true in
  let pid' := snd (UpdateLoop r clock 100 0 0 pid) in
  integral pid' = 0 /\
  (MaxOutput pid' / Ki pid' <? abs (integral pid')) = false.
Proof.
  cbv zeta.
  destruct (UpdateLoop_invariant_any r antiwindup_state 100 0
              (antiwindup_state_step r) clock 0
              (literal 1 0.1 0 (-10) 10 0 false true))
    as (saturated & previous & last & E & _).
  - exists false, 0, 0%Z. split; [reflexivity | now left].
  - rewrite E. split; reflexivity.
Qed.

(** X16.  [TestPIDUpdate] passes on every clock that ticks: for each of
    the four cases of its table, after three or more iterations of the
    loop (it runs 100) the output is within 0.1 of the expected value.
    Both revisions. *)
Theorem TestPIDUpdate_passes r tt t clock :
  In tt tests ->
  (0 <= t)%Z -> ticking t clock -> (3 <= length clock)%nat ->
  TestPIDUpdate_fails r tt clock = false.
Proof.
  intros Hin Ht Hclock Hlen. unfold TestPIDUpdate_fails. cbv zeta.
  destruct Hin as [<-|[<-|[<-|[<-|[]]]]]; cbn [tt_pid tt_setpoint tt_measured tt_expected].
  - destruct (UpdateLoop_invariant r _ 10 5 (update_state_step_1 r) clock 0 t 0
                (literal 1 0 0 (-100) 100 0 false false))
      as [t' H]; [repeat split; trivial | exact Hclock |].
    cbn [Nat.add] in H. destruct (length clock) as [|[|[|n]]]; try lia.
    destruct H as (saturated & last & _ & -> & _). reflexivity.
  - destruct (UpdateLoop_invariant r _ 10 5 (update_state_step_2 r) clock 0 t 0
                (literal 10 0 0 (-20) 20 0 false false))
      as [t' H]; [repeat split; trivial | exact Hclock |].
    cbn [Nat.add] in H. destruct (length clock) as [|[|[|n]]]; try lia.
    destruct H as (saturated & last & _ & -> & _). reflexivity.
  - destruct (UpdateLoop_invariant r _ 10 5 (update_state_step_3 r) clock 0 t 0
                (literal 1 0.1 0.05 (-100) 100 0 false false))
      as [t' H]; [repeat split; trivial | exact Hclock |].
    cbn [Nat.add] in H. destruct (length clock) as [|[|[|n]]]; try lia.
    destruct H as (saturated & last & _ & -> & _). reflexivity.
  - destruct (UpdateLoop_invariant_any r deadband_state 10 9
                (deadband_state_step r) clock 0
                (literal 1 0 0 (-100) 100 2 false false))
      as (last & _ & ->); [now exists 0%Z | reflexivity].
Qed.

(** Three iterations of the third case. *)
Lemma TestPIDUpdate_passes_witness :
  TestPIDUpdate_fails primary
    (mkTestcase (literal 1 0.1 0.05 (-100) 100 0 false false) 10 5 5.05)
    [(t0, after t0 time.Microsecond); (t1, t1); (t2, t2)] = false.
Proof.
  apply (TestPIDUpdate_passes primary _ 0%Z).
  - right. right. left. reflexivity.
  - discriminate.
  - vm_compute. repeat split; discriminate.
  - cbn. lia.
Defined.

